(** * stemr: LNA path proposal and density evaluation

    A shallow embedding of [src/pars2lnapars.cpp], [src/propose_lna.cpp] and
    [src/lna_density2.cpp].

    Conventions of the embedding.
    - A C++ [double] is a real number of the Standard Library ([R]): the
      embedding describes runs whose values stay finite, and computes
      exactly.  Rounding is not represented.  What lines 96 to 105 of
      [propose_lna] do with an infinity or a NaN is modelled apart, in
      [Ieee].
    - An Armadillo or Rcpp vector is a [list R].  A matrix ([arma::mat],
      [Rcpp::NumericMatrix]) is stored column by column, as both libraries do,
      together with its row count; a cube is the list of its slices.
    - A call either returns or leaves through an exception.  The exceptions
      are the ones the source handles ([std::runtime_error] out of
      [arma::chol]) and the ones the libraries' checked accessors throw.  A
      raw access out of range ([operator[]], [std::copy]) has no defined
      behaviour in C++; the embedding stops there with [UndefinedAccess].
    - The ODE integrator, the parameter-setting callback, the Cholesky
      factorisation, the normal sampler and the multivariate normal density
      live outside the three files; they are section variables.  The
      integrator works in place on the caller's buffer: as a function it
      takes the parameter vector it holds and the buffer, and returns the new
      content of the buffer.  The callback replaces the vector the
      integrator holds; the vectors it receives are also recorded, oldest
      first. *)

From Stdlib Require Import Reals List Lia Lra Psatz Bool Arith ZArith.
Import ListNotations.
Local Open Scope R_scope.

Set Implicit Arguments.

(* ================================================================== *)
(** ** Outcomes of a call *)

Inductive failure : Type :=
| NumericalFailure   (* std::runtime_error of arma::chol, forwarded to R *)
| SizeMismatch       (* Armadillo size check: incompatible dimensions *)
| IndexOutOfBounds   (* Armadillo or Rcpp bounds check *)
| UndefinedAccess.   (* unchecked access outside the object *)

Inductive outcome (A : Type) : Type :=
| Returned (a : A)
| Raised (e : failure).

Arguments Raised {A} e.

Definition bind {A B : Type} (c : outcome A) (k : A -> outcome B) : outcome B :=
  match c with
  | Returned a => k a
  | Raised e => Raised e
  end.

Notation "x <- c ;; k" := (bind c (fun x => k))
  (at level 61, c at next level, right associativity).

Definition check (b : bool) (e : failure) : outcome unit :=
  if b then Returned tt else Raised e.

(* ================================================================== *)
(** ** Vectors and matrices *)

Abbreviation vec := (list R).

Record mat : Type := mkMat {
  n_rows : nat;
  cols : list vec          (* column-major; every column has n_rows entries *)
}.

Definition n_cols (M : mat) : nat := length (cols M).

Definition wf_mat (M : mat) : Prop :=
  Forall (fun c => length c = n_rows M) (cols M).

Definition mcol (M : mat) (j : nat) : vec := nth j (cols M) [].

(** [M(i,j)] *)
Definition elem (M : mat) (i j : nat) : R := nth i (mcol M j) 0.

(** The entries of row [i], left to right. *)
Definition mrow (M : mat) (i : nat) : vec := map (fun c => nth i c 0) (cols M).

Definition zeros (n : nat) : vec := repeat 0 n.

Definition zeros_mat (r c : nat) : mat := mkMat r (repeat (zeros r) c).

(** Overwrite [dst] from position [pos] on with [src] ([std::copy] into
    [dst.begin() + pos]); the caller has checked that it fits. *)
Definition copy_into (src dst : vec) (pos : nat) : vec :=
  firstn pos dst ++ src ++ skipn (pos + length src) dst.

(** Replace entry [i] of a list; a list too short is left as it is (every
    caller checks the index first). *)
Fixpoint upd {A : Type} (i : nat) (x : A) (l : list A) : list A :=
  match l, i with
  | [], _ => []
  | _ :: tl, O => x :: tl
  | h :: tl, S i' => h :: upd i' x tl
  end.

(** Entry-wise sum of two vectors of one length. *)
Definition vadd (a b : vec) : vec :=
  map (fun p => fst p + snd p) (combine a b).

(** [a + b] of Armadillo: the sizes are compared first. *)
Definition vadd_checked (a b : vec) : outcome vec :=
  _ <- check (length a =? length b)%nat SizeMismatch ;;
  Returned (vadd a b).

Definition sum (v : vec) : R := fold_right Rplus 0 v.

Definition dot (a b : vec) : R :=
  sum (map (fun p => fst p * snd p) (combine a b)).

(** Matrix times column vector, entry [i] being row [i] times [v]. *)
Definition mat_vec (M : mat) (v : vec) : vec :=
  map (fun i => dot (mrow M i) v) (seq 0 (n_rows M)).

Definition mat_vec_checked (M : mat) (v : vec) : outcome vec :=
  _ <- check (n_cols M =? length v)%nat SizeMismatch ;;
  Returned (mat_vec M v).

(** A matrix over a column-major memory block. *)
Definition mat_of_mem (r c : nat) (mem : vec) : mat :=
  mkMat r (map (fun j => firstn r (skipn (j * r) mem)) (seq 0 c)).

(** [arma::symmatu]: the upper triangle reflected into the lower one. *)
Definition symmatu (X : mat) : mat :=
  let n := n_rows X in
  mkMat n (map (fun j =>
                  map (fun i => if (i <=? j)%nat then elem X i j else elem X j i)
                      (seq 0 n))
               (seq 0 n)).

(** [M.t()] *)
Definition transpose (M : mat) : mat :=
  mkMat (n_cols M) (map (mrow M) (seq 0 (n_rows M))).

(** [M.row(i) = v], after the bounds and size checks. *)
Definition set_row (M : mat) (i : nat) (v : vec) : mat :=
  mkMat (n_rows M) (map (fun p => upd i (snd p) (fst p)) (combine (cols M) v)).

Definition set_row_checked (M : mat) (i : nat) (v : vec) : outcome mat :=
  _ <- check (i <? n_rows M)%nat IndexOutOfBounds ;;
  _ <- check (length v =? n_cols M)%nat SizeMismatch ;;
  Returned (set_row M i v).

(** [M(span(r1, r2), j) = v] *)
Definition set_col_span_checked (M : mat) (r1 r2 j : nat) (v : vec) : outcome mat :=
  _ <- check ((j <? n_cols M) && (r1 <=? r2) && (r2 <? n_rows M))%nat
             IndexOutOfBounds ;;
  _ <- check (length v =? r2 - r1 + 1)%nat SizeMismatch ;;
  Returned (mkMat (n_rows M) (upd j (copy_into v (mcol M j) r1) (cols M))).

(** [v.subvec(a, b)]: the bounds arrive unsigned, so a negative [int] fails
    the check as an index that is too large does. *)
Definition subvec_checked (v : vec) (a b : Z) : outcome vec :=
  _ <- check ((0 <=? a) && (0 <=? b) && (a <=? b) &&
              (b <? Z.of_nat (length v)))%Z IndexOutOfBounds ;;
  Returned (firstn (Z.to_nat (b - a + 1)) (skipn (Z.to_nat a) v)).

(** [C.slice(k)] of a cube. *)
Definition slice_checked (C : list mat) (k : nat) : outcome mat :=
  _ <- check (k <? length C)%nat IndexOutOfBounds ;;
  Returned (nth k C (mkMat 0 [])).

(** [M(i, span(c1, c2))] *)
Definition row_span_checked (M : mat) (i c1 c2 : nat) : outcome vec :=
  _ <- check ((i <? n_rows M) && (c1 <=? c2) && (c2 <? n_cols M))%nat
             IndexOutOfBounds ;;
  Returned (firstn (c2 - c1 + 1) (skipn c1 (mrow M i))).

(** [M.row(i)] of an [Rcpp::NumericMatrix], copied into a vector. *)
Definition rcpp_row (M : mat) (i : nat) : outcome vec :=
  _ <- check (i <? n_rows M)%nat IndexOutOfBounds ;;
  Returned (mrow M i).

(** [v[i]] of an [Rcpp::LogicalVector]: no check in the library. *)
Definition flag_at (v : list bool) (i : nat) : outcome bool :=
  _ <- check (i <? length v)%nat UndefinedAccess ;;
  Returned (nth i v false).

(** [x.elem(find(x < 0)).zeros()] on one entry. *)
Definition clamp_neg (x : R) : R := if Rlt_dec x 0 then 0 else x.

(** The contract of a lower Cholesky factorisation: a factor [L] returned
    for [A] has the size of [A] and [L * L.t()] is [A]. *)
Definition chol_factorises (chol_lower : mat -> option mat) : Prop :=
  forall A L, chol_lower A = Some L ->
    n_rows L = n_rows A /\
    forall i k, (i < n_rows A)%nat -> (k < n_rows A)%nat ->
                dot (mrow L i) (mrow L k) = elem A i k.

(** What [arma::chol] (LAPACK potrf) guarantees when it returns: the factor
    has a positive diagonal, so a matrix with a pivot that is zero or
    negative is refused. *)
Definition chol_positive_definite (chol_lower : mat -> option mat) : Prop :=
  chol_factorises chol_lower /\
  forall A L, chol_lower A = Some L ->
    forall i, (i < n_rows A)%nat -> 0 < elem L i i.

(** [for (j = ...; ...; ++j) body], over the indices in [js]; an exception in
    the body leaves the loop. *)
Fixpoint for_each {S : Type} (js : list nat) (body : nat -> S -> outcome S)
         (st : S) : outcome S :=
  match js with
  | [] => Returned st
  | j :: js' => st' <- body j st ;; for_each js' body st'
  end.

(* ================================================================== *)
(** ** pars2lnapars.cpp *)

Module ParsWriter.

(** Bounds check of [Mat::cols(in_col1, in_col2)].  The arguments are
    unsigned there: a negative [int] arrives as a value above every column
    count, so it fails the check like any other index that is too large. *)
Definition cols_in_bounds (M : mat) (in_col1 in_col2 : Z) : bool :=
  ((0 <=? in_col1) && (0 <=? in_col2) &&
   (in_col1 <=? in_col2) && (in_col2 <? Z.of_nat (n_cols M)))%Z.

(** [lnapars.cols(0, k-1).each_row() = parameters]: column [i] of the view is
    filled with [parameters[i]]. *)
Definition each_row_assign (lnapars : mat) (parameters : vec) : mat :=
  mkMat (n_rows lnapars)
        (map (fun p => repeat p (n_rows lnapars)) parameters
         ++ skipn (length parameters) (cols lnapars)).

(** The function is [void] and works on the caller's matrix: the result is
    the unit value and the new content of [lnapars]. *)
Definition pars2lnapars (lnapars : mat) (parameters : vec) : outcome (unit * mat) :=
  let n_pars := Z.of_nat (length parameters) in
  _ <- check (cols_in_bounds lnapars 0 (n_pars - 1)) IndexOutOfBounds ;;
  Returned (tt, each_row_assign lnapars parameters).

(** The contract of the writer on one input. *)
Definition writer_contract (lnapars : mat) (parameters : vec) : Prop :=
  (length parameters <= n_cols lnapars)%nat ->
  exists M',
    pars2lnapars lnapars parameters = Returned (tt, M') /\
    n_rows M' = n_rows lnapars /\
    n_cols M' = n_cols lnapars /\
    (forall i j, (i < n_rows lnapars)%nat -> (j < length parameters)%nat ->
                 elem M' i j = nth j parameters 0) /\
    (forall j, (length parameters <= j)%nat -> mcol M' j = mcol lnapars j).

End ParsWriter.


(* ================================================================== *)
(** ** propose_lna.cpp *)

Module Proposer.

(** The variables [propose_lna] declares before its loop and updates in it,
    with the two pieces of state that live outside the function: the
    parameter vector the integrator holds, and the list of vectors the
    parameter-setting callback has been called with (oldest first). *)
Record state : Type := mkState {
  current_params : vec;
  init_state : vec;
  init_volumes : vec;
  lna_state_vec : vec;
  lna_drift : vec;
  lna_diffusion : mat;
  log_lna : vec;
  nat_lna : vec;
  c_incid : vec;
  lna_path : mat;
  ode_pars : vec;
  pushed : list vec
}.

(** The list the function returns. *)
Record proposal : Type := mkProposal {
  out_draws : mat;
  out_lna_path : mat
}.

Section Proposer.

(** [CALL_INTEGRATE_STEM_LNA(x, t_L, t_R, step, ptr)]: the content of the
    buffer [x] after the call, given the parameters the integrator holds. *)
Variable integrate_stem_lna : vec -> vec -> R -> R -> R -> vec.

(** [arma::chol(X, "lower")]; [None] when it throws [std::runtime_error]. *)
Variable chol_lower : mat -> option mat.

(** Entry [(i, j)] of the matrix filled by [arma::fill::randn]. *)
Variable randn : nat -> nat -> R.

Variable lna_times : vec.
Variable lna_pars : mat.
Variable init_start : nat.
Variable param_update_inds : list bool.
Variable stoich_matrix : mat.

Definition n_events : nat := n_cols stoich_matrix.
Definition n_comps : nat := n_rows stoich_matrix.
Definition n_odes : nat := n_events + n_events * n_events.
Definition n_times : nat := length lna_times.

(** [arma::mat draws(n_events, n_times-1, arma::fill::randn)] *)
Definition draws : mat :=
  mkMat n_events
        (map (fun j => map (fun i => randn i j) (seq 0 n_events))
             (seq 0 (n_times - 1))).

(** [CALL_SET_LNA_PARAMS(p, set_pars_pointer)] *)
Definition set_lna_params (p : vec) (ode : vec * list vec) : vec * list vec :=
  (p, snd ode ++ [p]).

(** Lines 33 to 68: everything before the loop. *)
Definition initialise : outcome state :=
  current_params <- rcpp_row lna_pars 0 ;;
  let ode := set_lna_params current_params ([], []) in
  _ <- check (init_start + n_comps <=? length current_params)%nat
             UndefinedAccess ;;
  let init_state := firstn n_comps (skipn init_start current_params) in
  let init_volumes := init_state in
  lna_path <- set_row_checked (zeros_mat (n_events + 1) n_times) 0 lna_times ;;
  (* without a time point the column count n_times - 1 of draws wraps
     around to the largest unsigned value and the allocation is refused *)
  _ <- check (1 <=? n_times)%nat SizeMismatch ;;
  Returned (mkState current_params init_state init_volumes
                    (zeros n_odes)
                    (zeros n_events) (zeros_mat n_events n_events)
                    (zeros n_events) (zeros n_events) (zeros n_events)
                    lna_path (fst ode) (snd ode)).

(** Lines 73 to 79: the buffer is reset to zero and integrated over
    [lna_times[j], lna_times[j+1]]. *)
Definition integrated (j : nat) (st : state) : vec :=
  let t_L := nth j lna_times 0 in
  let t_R := nth (j + 1) lna_times 0 in
  integrate_stem_lna (ode_pars st) (zeros n_odes) t_L t_R (1 / 1000).

(** Lines 82 to 86: the drift is the head of the buffer, the diffusion
    matrix its tail read column by column, then symmetrised. *)
Definition integrated_drift (j : nat) (st : state) : vec :=
  firstn n_events (integrated j st).

Definition integrated_diffusion (j : nat) (st : state) : mat :=
  mat_of_mem n_events n_events (skipn n_events (integrated j st)).

(** Lines 73 to 116: the body of the loop for interval [j]. *)
Definition interval (j : nat) (st : state) : outcome state :=
  let lna_state_vec := integrated j st in
  let lna_drift := integrated_drift j st in
  let lna_diffusion := symmatu (integrated_diffusion j st) in
  match chol_lower lna_diffusion with
  | None => Raised NumericalFailure     (* forward_exception_to_r(err) *)
  | Some L =>
    Ld <- mat_vec_checked L (mcol draws j) ;;
    log_lna <- vadd_checked lna_drift Ld ;;
    let nat_lna := map clamp_neg (map (fun x => exp x - 1) log_lna) in
    c_incid <- vadd_checked (c_incid st) nat_lna ;;
    lna_path <- set_col_span_checked (lna_path st) 1 n_events (j + 1) c_incid ;;
    Sc <- mat_vec_checked stoich_matrix c_incid ;;
    sum_vol <- vadd_checked (init_state st) Sc ;;
    let init_volumes := map clamp_neg sum_vol in
    update <- flag_at param_update_inds (j + 1) ;;
    current_params <-
      (if update then rcpp_row lna_pars (j + 1)
       else Returned (current_params st)) ;;
    _ <- check (init_start + length init_volumes <=? length current_params)%nat
               UndefinedAccess ;;
    let current_params := copy_into init_volumes current_params init_start in
    let ode := set_lna_params current_params (ode_pars st, pushed st) in
    Returned (mkState current_params (init_state st) init_volumes
                      lna_state_vec lna_drift lna_diffusion
                      log_lna nat_lna c_incid lna_path
                      (fst ode) (snd ode))
  end.

(** The state after the first [k] intervals. *)
Definition run (k : nat) : outcome state :=
  st0 <- initialise ;; for_each (seq 0 k) interval st0.

(** Shape of the path matrix inside the loop: one column per time point,
    headed by the time, with [n_events] entries below it. *)
Definition path_shape (P : mat) : Prop :=
  n_rows P = (n_events + 1)%nat /\
  n_cols P = n_times /\
  forall j, (j < n_times)%nat ->
            exists tl, mcol P j = nth j lna_times 0 :: tl /\ length tl = n_events.

Definition propose_lna : outcome proposal :=
  st <- run (n_times - 1) ;;
  Returned (mkProposal draws (transpose (lna_path st))).

End Proposer.
End Proposer.

(* ================================================================== *)
(** ** lna_density2.cpp *)

Module Evaluator.

(** The named list [path] the function receives. *)
Record path_bundle : Type := mkPath {
  lna_path : mat;
  res_path : mat;
  drift : mat;
  residual : mat;
  diffusion : list mat;
  data_log_lik : R
}.

(** The named list the function returns. *)
Record density : Type := mkDensity {
  out_lna_path : mat;
  out_res_path : mat;
  out_drift : mat;
  out_residual : mat;
  out_diffusion : list mat;
  out_data_log_lik : R;
  out_lna_log_lik : R
}.

(** The variables the loop of [lna_density2] updates, with the integrator's
    parameter vector and the list of vectors pushed through the callback. *)
Record state : Type := mkState {
  current_params : vec;
  lna_state_vec : vec;
  residual_process : mat;
  lna_log_lik : R;
  ode_pars : vec;
  pushed : list vec
}.

Section Evaluator.

(** [CALL_INTEGRATE_STEM_LNA(x, t_L, t_R, step, ptr)], as in the proposer. *)
Variable integrate_stem_lna : vec -> vec -> R -> R -> R -> vec.

(** [dmvtn(x, mean, sigma, logd)] of stemr_utils.h. *)
Variable dmvtn : vec -> vec -> mat -> bool -> vec.

Variable path : path_bundle.
Variable lna_times : vec.
Variable lna_pars : mat.
Variable param_update_inds : list bool.
Variable flow_matrix : mat.

Definition n_comps : nat := n_rows flow_matrix.
Definition n_odes : nat := 2 * n_comps.
Definition n_times : nat := length lna_times.
Definition resid_start : nat := n_comps.
Definition resid_end : Z := 2 * Z.of_nat n_comps - 1.

(** [CALL_SET_LNA_PARAMS(p, lna_ess_set_pars_ptr)] *)
Definition set_lna_params (p : vec) (ode : vec * list vec) : vec * list vec :=
  (p, snd ode ++ [p]).

(** Lines 34 to 62. *)
Definition initialise : outcome state :=
  current_params <- rcpp_row lna_pars 0 ;;
  let ode := set_lna_params current_params ([], []) in
  Returned (mkState current_params (zeros n_odes) (residual path) 0
                    (fst ode) (snd ode)).

(** Row [j] of the residual path without its leading time column:
    [residual_path(j, arma::span(1, n_comps))]. *)
Definition observed_residual (j : nat) : vec :=
  firstn n_comps (skipn 1 (mrow (res_path path) j)).

(** The buffer after the integration over [lna_times[j-1], lna_times[j]],
    started from the buffer [x] with the integrator holding [pars]. *)
Definition integrated (j : nat) (pars x : vec) : vec :=
  integrate_stem_lna pars x (nth (j - 1) lna_times 0) (nth j lna_times 0) 1.

(** Lines 67 to 90: the body of the loop for index [j]. *)
Definition interval (j : nat) (st : state) : outcome state :=
  update <- flag_at param_update_inds (j - 1) ;;
  pars <-
    (if update then
       row <- rcpp_row lna_pars (j - 1) ;;
       Returned (row, set_lna_params row (ode_pars st, pushed st))
     else Returned (current_params st, (ode_pars st, pushed st))) ;;
  let current_params := fst pars in
  let ode := snd pars in
  let lna_state_vec := integrated j (fst ode) (lna_state_vec st) in
  mean <- subvec_checked lna_state_vec (Z.of_nat resid_start) resid_end ;;
  residual_process <- set_row_checked (residual_process st) j mean ;;
  x <- row_span_checked (res_path path) j 1 n_comps ;;
  sigma <- slice_checked (diffusion path) j ;;
  let d := dmvtn x (mrow residual_process j) sigma true in
  _ <- check (0 <? length d)%nat UndefinedAccess ;;
  let lna_log_lik := lna_log_lik st + nth 0 d 0 in
  res_vec <- row_span_checked (res_path path) j 1 n_comps ;;
  let lna_state_vec := copy_into res_vec lna_state_vec resid_start in
  Returned (mkState current_params lna_state_vec residual_process lna_log_lik
                    (fst ode) (snd ode)).

(** The state after the loop has run for [j = 1, ..., k]. *)
Definition run (k : nat) : outcome state :=
  st0 <- initialise ;; for_each (seq 1 k) interval st0.

Definition lna_density2 : outcome density :=
  st <- run (n_times - 1) ;;
  Returned (mkDensity (lna_path path) (res_path path) (drift path)
                      (residual_process st) (diffusion path)
                      (data_log_lik path) (lna_log_lik st)).

End Evaluator.
End Evaluator.

(* ================================================================== *)
(** ** Sample inputs *)

Module Samples.

(** A 2 x 3 parameter matrix. *)
Definition sample_pars : mat := mkMat 2 [[1; 2]; [3; 4]; [5; 6]].

(** One event moving one unit from the first compartment to the second,
    three time points, and a parameter table with one rate followed by the
    two compartment volumes; the rows differ, so a reload is visible. *)
Definition sample_stoich : mat := mkMat 2 [[-1; 1]].
Definition sample_times : vec := [0; 1; 2].
Definition sample_lna_pars : mat := mkMat 3 [[2; 3; 4]; [10; 50; 60]; [1; 5; 6]].
Definition sample_init_start : nat := 1.
Definition sample_flags : list bool := [true; true; false].
Definition quiet_flags : list bool := [true; false; false].
Definition sample_randn (i j : nat) : R := 1.

(** Integrators for one event: the buffer holds the drift and one diffusion
    entry.  [unit_noise] leaves drift 0 and diffusion 1, [steady] leaves the
    buffer as it finds it, [bad_noise] leaves a negative diffusion. *)
Definition unit_noise (pars x : vec) (t_L t_R step : R) : vec := [0; 1].
Definition steady (pars x : vec) (t_L t_R step : R) : vec := x.
Definition bad_noise (pars x : vec) (t_L t_R step : R) : vec := [0; -1].

(** Diffusion 1 and a drift of 1 over the interval starting at time 0 and
    of -2 over the one starting at time 1. *)
Definition ebbing (pars x : vec) (t_L t_R step : R) : vec := [1 - 3 * t_L; 1].

(** Cholesky factorisation of a one-entry matrix, as LAPACK does it: the
    square root of a positive entry; an entry that is zero or negative is
    refused, and so is any other shape. *)
Definition chol_1x1 (A : mat) : option mat :=
  match n_rows A, cols A with
  | 1%nat, [[x]] => if Rlt_dec 0 x then Some (mkMat 1 [[sqrt x]]) else None
  | _, _ => None
  end.

(** Parameter tables for the same model: one with a single row, one
    without rows, and one that differs from [sample_lna_pars] only in the
    volume columns of its rows after row 0. *)
Definition one_row_pars : mat := mkMat 1 [[2]; [10]; [1]].
Definition no_row_pars : mat := mkMat 0 [[]; []; []].
Definition other_volumes_pars : mat := mkMat 3 [[2; 3; 4]; [10; 0; 0]; [1; 99; 7]].


(** A bundle for one compartment over the same three time points: the
    residual path carries the time in column 0; one 1 x 1 diffusion slice per
    time point. *)
Definition sample_flow : mat := mkMat 1 [[1]].
Definition sample_path : Evaluator.path_bundle :=
  Evaluator.mkPath (mkMat 3 [[0; 1; 2]; [0; 7; 9]])
                   (mkMat 3 [[0; 1; 2]; [0; 3; 4]])
                   (mkMat 3 [[0; 0; 0]])
                   (mkMat 3 [[0; 0; 0]])
                   [mkMat 1 [[1]]; mkMat 1 [[1]]; mkMat 1 [[1]]]
                   (-5).

(** The same bundle with a diffusion slice missing, and one with other
    values in the residual process, the path, the drift and the data
    log-likelihood. *)
Definition short_diffusion_path : Evaluator.path_bundle :=
  Evaluator.mkPath (mkMat 3 [[0; 1; 2]; [0; 7; 9]])
                   (mkMat 3 [[0; 1; 2]; [0; 3; 4]])
                   (mkMat 3 [[0; 0; 0]])
                   (mkMat 3 [[0; 0; 0]])
                   [mkMat 1 [[1]]; mkMat 1 [[1]]]
                   (-5).
Definition other_residual_path : Evaluator.path_bundle :=
  Evaluator.mkPath (mkMat 3 [[0; 1; 2]; [0; 1; 1]])
                   (mkMat 3 [[0; 1; 2]; [0; 3; 4]])
                   (mkMat 3 [[8; 8; 8]])
                   (mkMat 3 [[5; 6; 7]])
                   [mkMat 1 [[1]]; mkMat 1 [[1]]; mkMat 1 [[1]]]
                   12.

(** An integrator that adds 1 to every entry of the buffer, and a density
    with one entry that only looks at the point and the mean. *)
Definition shift_one (pars x : vec) (t_L t_R step : R) : vec :=
  map (fun v => v + 1) x.
Definition sample_dmvtn (x mean : vec) (sigma : mat) (logd : bool) : vec :=
  [sum x - sum mean].

End Samples.

(* ================================================================== *)
(** ** Which parameter rows are in force *)

Module Tracking.

(** In [propose_lna] the flag of index [j+1] is read at the end of interval
    [j]: after [k] intervals the row last loaded is the one of the largest
    index in [1..k] whose flag is set, and row 0 when there is none. *)
Fixpoint row_in_force (param_update_inds : list bool) (k : nat) : nat :=
  match k with
  | O => O
  | S k' => if nth (S k') param_update_inds false then S k'
            else row_in_force param_update_inds k'
  end.

(** In [lna_density2] the flag of index [j-1] is read at the start of
    iteration [j]: the indices whose rows have been loaded and pushed during
    iterations [1..k], in order. *)
Definition reloaded (param_update_inds : list bool) (k : nat) : list nat :=
  filter (fun i => nth i param_update_inds false) (seq 0 k).

(** Two states of the loop of [lna_density2] that differ at most in the
    content of the residual process. *)
Definition alike (st st' : Evaluator.state) : Prop :=
  Evaluator.current_params st' = Evaluator.current_params st /\
  Evaluator.lna_state_vec st' = Evaluator.lna_state_vec st /\
  Evaluator.lna_log_lik st' = Evaluator.lna_log_lik st /\
  Evaluator.ode_pars st' = Evaluator.ode_pars st /\
  Evaluator.pushed st' = Evaluator.pushed st /\
  wf_mat (Evaluator.residual_process st) /\
  wf_mat (Evaluator.residual_process st') /\
  n_rows (Evaluator.residual_process st')
    = n_rows (Evaluator.residual_process st) /\
  n_cols (Evaluator.residual_process st')
    = n_cols (Evaluator.residual_process st).

End Tracking.

(* ================================================================== *)
(** ** Infinities and NaN in propose_lna.cpp, lines 96 to 105 *)

Module Ieee.















End Ieee.

(* ================================================================== *)
(** * Properties *)

Unset Implicit Arguments.

(** ** Outcomes and loops *)

Lemma bind_returned (A B : Type) (c : outcome A) (k : A -> outcome B) (b : B) :
  bind c k = Returned b -> exists a, c = Returned a /\ k a = Returned b.
Proof.
  destruct c as [a|e]; simpl; intros H; [exists a; auto | discriminate].
Qed.

Lemma check_returned (b : bool) (e : failure) (u : unit) :
  check b e = Returned u -> b = true.
Proof. destruct b; simpl; [reflexivity | discriminate]. Qed.

(** Take apart a hypothesis saying that a sequence of checked steps returned. *)
Ltac returned_inv H :=
  let a := fresh "a" in
  let Ha := fresh "Ha" in
  match type of H with
  | bind _ _ = Returned _ =>
      apply bind_returned in H; destruct H as [a [Ha H]];
      try returned_inv Ha; try returned_inv H
  | check _ _ = Returned _ => apply check_returned in H
  | Returned _ = Returned _ => injection H as H
  | _ => idtac
  end.

Lemma for_each_app (S : Type) (body : nat -> S -> outcome S)
      (l1 l2 : list nat) (st : S) :
  for_each (l1 ++ l2) body st =
  bind (for_each l1 body st) (for_each l2 body).
Proof.
  revert st; induction l1 as [|j l1 IH]; intros st; simpl; [reflexivity|].
  destruct (body j st) as [st'|e]; simpl; [apply IH | reflexivity].
Qed.

Lemma bind_ret_r (A : Type) (c : outcome A) :
  bind c (fun a => Returned a) = c.
Proof. destruct c; reflexivity. Qed.

(** ** Lists, vectors and matrices *)

Lemma nth_repeat_lt (A : Type) (x d : A) (n i : nat) :
  (i < n)%nat -> nth i (repeat x n) d = x.
Proof.
  revert i; induction n as [|n IH]; intros [|i] H; simpl; try lia; auto.
  apply IH; lia.
Qed.

Lemma nth_skipn_shift (A : Type) (l : list A) (d : A) (k i : nat) :
  nth i (skipn k l) d = nth (k + i) l d.
Proof.
  revert l; induction k as [|k IH]; intros [|a l]; simpl; auto.
  destruct i; reflexivity.
Qed.

Lemma upd_length (A : Type) (i : nat) (x : A) (l : list A) :
  length (upd i x l) = length l.
Proof.
  revert i; induction l as [|h tl IH]; intros [|i]; simpl; auto.
Qed.

Lemma nth_upd_same (A : Type) (i : nat) (x d : A) (l : list A) :
  (i < length l)%nat -> nth i (upd i x l) d = x.
Proof.
  revert i; induction l as [|h tl IH]; intros [|i] H; simpl in *; try lia; auto.
  apply IH; lia.
Qed.

Lemma nth_upd_other (A : Type) (i k : nat) (x d : A) (l : list A) :
  i <> k -> nth k (upd i x l) d = nth k l d.
Proof.
  revert i k; induction l as [|h tl IH]; intros [|i] [|k] H; simpl; auto; try lia.
Qed.

Lemma vadd_length (a b : vec) :
  length a = length b -> length (vadd a b) = length a.
Proof.
  intros H. unfold vadd. rewrite length_map, length_combine. lia.
Qed.

Lemma nth_vadd (a b : vec) (i : nat) :
  length a = length b -> nth i (vadd a b) 0 = nth i a 0 + nth i b 0.
Proof.
  revert b i; induction a as [|x a IH]; intros [|y b] i H; simpl in *;
    try discriminate.
  - destruct i; lra.
  - destruct i; [reflexivity|]. apply IH; lia.
Qed.

Lemma vadd_checked_returned (a b c : vec) :
  vadd_checked a b = Returned c -> length a = length b /\ c = vadd a b.
Proof.
  unfold vadd_checked; intros H. returned_inv H.
  apply Nat.eqb_eq in Ha. auto.
Qed.

Lemma mat_vec_checked_returned (M : mat) (v w : vec) :
  mat_vec_checked M v = Returned w -> n_cols M = length v /\ w = mat_vec M v.
Proof.
  unfold mat_vec_checked; intros H. returned_inv H.
  apply Nat.eqb_eq in Ha. auto.
Qed.

Lemma mat_vec_length (M : mat) (v : vec) : length (mat_vec M v) = n_rows M.
Proof. unfold mat_vec. now rewrite length_map, length_seq. Qed.

Lemma clamp_neg_nonneg (x : R) : 0 <= clamp_neg x.
Proof. unfold clamp_neg. destruct (Rlt_dec x 0); lra. Qed.

Lemma clamp_neg_zero : clamp_neg 0 = 0.
Proof. unfold clamp_neg. destruct (Rlt_dec 0 0); lra. Qed.

Lemma Forall_clamp_neg (v : vec) : Forall (fun x => 0 <= x) (map clamp_neg v).
Proof.
  induction v; simpl; constructor; auto using clamp_neg_nonneg.
Qed.

Lemma nth_map_clamp_nonneg (v : vec) (i : nat) : 0 <= nth i (map clamp_neg v) 0.
Proof.
  destruct (Nat.lt_ge_cases i (length (map clamp_neg v))) as [Hi|Hi].
  - pose proof (Forall_clamp_neg v) as F. rewrite Forall_forall in F.
    apply F, nth_In, Hi.
  - rewrite nth_overflow by exact Hi. lra.
Qed.

Lemma copy_into_length (src dst : vec) (pos : nat) :
  (pos + length src <= length dst)%nat ->
  length (copy_into src dst pos) = length dst.
Proof.
  intros H. unfold copy_into.
  rewrite !length_app, length_firstn, length_skipn. lia.
Qed.

Lemma copy_into_segment (src dst : vec) (pos : nat) :
  (pos + length src <= length dst)%nat ->
  firstn (length src) (skipn pos (copy_into src dst pos)) = src.
Proof.
  intros H. unfold copy_into.
  rewrite skipn_app, length_firstn.
  replace (pos - Nat.min pos (length dst))%nat with 0%nat by lia.
  rewrite (skipn_all2 (firstn pos dst)) by (rewrite length_firstn; lia).
  simpl. rewrite firstn_app, Nat.sub_diag, firstn_all. simpl.
  apply app_nil_r.
Qed.

Lemma copy_into_before (src dst : vec) (pos i : nat) :
  (pos + length src <= length dst)%nat -> (i < pos)%nat ->
  nth i (copy_into src dst pos) 0 = nth i dst 0.
Proof.
  intros H Hi. unfold copy_into.
  rewrite app_nth1 by (rewrite length_firstn; lia).
  rewrite <- (firstn_skipn pos dst) at 2.
  rewrite app_nth1 by (rewrite length_firstn; lia). reflexivity.
Qed.

Lemma copy_into_after (src dst : vec) (pos i : nat) :
  (pos + length src <= length dst)%nat -> (pos + length src <= i)%nat ->
  nth i (copy_into src dst pos) 0 = nth i dst 0.
Proof.
  intros H Hi. unfold copy_into.
  rewrite app_nth2 by (rewrite length_firstn; lia).
  rewrite length_firstn.
  rewrite app_nth2 by lia.
  rewrite nth_skipn_shift. f_equal. lia.
Qed.

Lemma copy_into_firstn (src dst : vec) (pos : nat) :
  (pos + length src <= length dst)%nat ->
  firstn pos (copy_into src dst pos) = firstn pos dst.
Proof.
  intros H. unfold copy_into.
  rewrite firstn_app, length_firstn.
  replace (pos - Nat.min pos (length dst))%nat with 0%nat by lia.
  rewrite firstn_firstn, Nat.min_id. simpl. apply app_nil_r.
Qed.

Lemma nth_map_combine (A B C : Type) (f : A * B -> C) (la : list A)
      (lb : list B) (i : nat) (da : A) (db : B) (dc : C) :
  length la = length lb -> (i < length la)%nat ->
  nth i (map f (combine la lb)) dc = f (nth i la da, nth i lb db).
Proof.
  intros Hlen Hi.
  rewrite (nth_indep _ dc (f (da, db)))
    by (rewrite length_map, length_combine; lia).
  rewrite map_nth. f_equal. apply combine_nth; exact Hlen.
Qed.

Lemma nth_map_seq (A : Type) (f : nat -> A) (n i : nat) (d : A) :
  (i < n)%nat -> nth i (map f (seq 0 n)) d = f i.
Proof.
  intros Hi. rewrite (nth_indep _ d (f 0%nat)) by (now rewrite length_map, length_seq).
  rewrite map_nth, seq_nth by exact Hi. reflexivity.
Qed.

Lemma zeros_succ (n : nat) : zeros (n + 1) = 0 :: zeros n.
Proof. unfold zeros. rewrite Nat.add_1_r. reflexivity. Qed.

Lemma zeros_length (n : nat) : length (zeros n) = n.
Proof. apply repeat_length. Qed.

Lemma nth_mrow (M : mat) (i j : nat) : nth j (mrow M i) 0 = elem M i j.
Proof.
  unfold mrow, elem, mcol.
  destruct (Nat.lt_ge_cases j (length (cols M))) as [Hj|Hj].
  - rewrite (nth_indep _ 0 ((fun c => nth i c 0) [])) by (now rewrite length_map).
    apply (map_nth (fun c => nth i c 0)).
  - rewrite !nth_overflow; try (rewrite ?length_map; exact Hj).
    + destruct i; reflexivity.
    + rewrite nth_overflow by exact Hj. simpl. lia.
Qed.

(** Row [j] of the transpose is column [j]. *)
Lemma mrow_transpose (M : mat) (j : nat) :
  length (mcol M j) = n_rows M -> mrow (transpose M) j = mcol M j.
Proof.
  intros Hlen. unfold transpose, mrow at 1; simpl.
  rewrite map_map.
  apply nth_ext with (d := 0) (d' := 0).
  - now rewrite length_map, length_seq.
  - intros i Hi. rewrite length_map, length_seq in Hi.
    rewrite nth_map_seq by exact Hi. apply nth_mrow.
Qed.

Lemma dot_cons (x y : R) (a b : vec) : dot (x :: a) (y :: b) = x * y + dot a b.
Proof. reflexivity. Qed.

Lemma dot_self_nonneg (v : vec) : 0 <= dot v v.
Proof.
  induction v as [|x v IH]; [unfold dot; simpl; lra|].
  rewrite dot_cons. nra.
Qed.

(** A vector whose square norm is zero is zero. *)
Lemma dot_self_zero (v : vec) : dot v v = 0 -> Forall (fun x => x = 0) v.
Proof.
  induction v as [|x v IH]; intros H; [constructor|].
  rewrite dot_cons in H. pose proof (dot_self_nonneg v).
  assert (x * x = 0) by nra.
  constructor; [nra | apply IH; nra].
Qed.

Lemma dot_zero_l (a b : vec) : Forall (fun x => x = 0) a -> dot a b = 0.
Proof.
  intros Ha; revert b; induction Ha as [|x a Hx Ha IH]; intros [|y b];
    try reflexivity.
  rewrite dot_cons, IH, Hx. lra.
Qed.

Lemma vadd_zero_zero (a b : vec) :
  Forall (fun x => x = 0) a -> Forall (fun x => x = 0) b ->
  Forall (fun x => x = 0) (vadd a b).
Proof.
  intros Ha; revert b; induction Ha as [|x a Hx Ha IH]; intros b Hb;
    [constructor|].
  destruct Hb as [|y b Hy Hb]; [constructor|].
  unfold vadd; simpl. constructor; [lra | apply IH; exact Hb].
Qed.

Lemma vadd_zero_r (a b : vec) :
  length a = length b -> Forall (fun x => x = 0) b -> vadd a b = a.
Proof.
  revert b; induction a as [|x a IH]; intros [|y b] Hlen Hb;
    simpl in Hlen; try discriminate; [reflexivity|].
  inversion Hb; subst. unfold vadd; simpl. f_equal; [lra|].
  apply IH; [lia | assumption].
Qed.

Lemma elem_symmatu_diag (X : mat) (i : nat) :
  (i < n_rows X)%nat -> elem (symmatu X) i i = elem X i i.
Proof.
  intros Hi. unfold elem at 1, mcol, symmatu. cbv zeta. simpl cols.
  rewrite (nth_map_seq vec _ _ _ [] Hi), (nth_map_seq R _ _ _ 0 Hi).
  now rewrite Nat.leb_refl.
Qed.

(** [exp(0) - 1] clamped is 0. *)
Lemma clamped_increment_zero (v : vec) :
  Forall (fun x => x = 0) v ->
  Forall (fun x => x = 0) (map clamp_neg (map (fun x => exp x - 1) v)).
Proof.
  induction 1 as [|x v Hx Hv IH]; simpl; constructor; [|exact IH].
  rewrite Hx, exp_0, Rminus_diag. apply clamp_neg_zero.
Qed.

Lemma set_row_wf (M : mat) (j : nat) (v : vec) :
  wf_mat M -> wf_mat (set_row M j v).
Proof.
  unfold wf_mat, set_row; simpl. generalize (n_rows M) as n. intros n.
  generalize (cols M) as cs. intros cs; revert v.
  induction cs as [|c cs IH]; intros [|x v] H; simpl; try constructor.
  - rewrite upd_length. now inversion H.
  - apply IH. now inversion H.
Qed.

Lemma set_row_n_cols (M : mat) (j : nat) (v : vec) :
  length v = n_cols M -> n_cols (set_row M j v) = n_cols M.
Proof.
  unfold n_cols, set_row; simpl. intros H.
  rewrite length_map, length_combine. lia.
Qed.

Lemma mrow_set_row_same (M : mat) (j : nat) (v : vec) :
  wf_mat M -> (j < n_rows M)%nat -> length v = n_cols M ->
  mrow (set_row M j v) j = v.
Proof.
  unfold wf_mat, n_cols, mrow, set_row; simpl.
  generalize (n_rows M) as n. intros n.
  generalize (cols M) as cs. intros cs; revert v.
  induction cs as [|c cs IH]; intros [|x v] Hwf Hj Hlen; simpl in *;
    try discriminate; [reflexivity|].
  inversion Hwf; subst. f_equal.
  - apply nth_upd_same. lia.
  - apply IH; auto.
Qed.

Lemma mrow_set_row_other (M : mat) (i j : nat) (v : vec) :
  i <> j -> length v = n_cols M -> mrow (set_row M j v) i = mrow M i.
Proof.
  unfold n_cols, mrow, set_row; simpl.
  generalize (cols M) as cs. intros cs; revert v.
  induction cs as [|c cs IH]; intros [|x v] Hne Hlen; simpl in *;
    try discriminate; [reflexivity|].
  f_equal.
  - apply nth_upd_other. auto.
  - apply IH; auto.
Qed.

Lemma subvec_checked_returned (v w : vec) (n : nat) :
  subvec_checked v (Z.of_nat n) (2 * Z.of_nat n - 1) = Returned w ->
  (1 <= n)%nat /\ (2 * n <= length v)%nat /\ w = firstn n (skipn n v).
Proof.
  remember (2 * Z.of_nat n - 1)%Z as b eqn:Eb.
  unfold subvec_checked. intros H.
  apply bind_returned in H; destruct H as [u [Hb H]].
  apply check_returned in Hb.
  apply andb_prop in Hb; destruct Hb as [Hb Hb4].
  apply andb_prop in Hb; destruct Hb as [Hb Hb3].
  apply andb_prop in Hb; destruct Hb as [Hb1 Hb2].
  apply Z.leb_le in Hb1, Hb2, Hb3. apply Z.ltb_lt in Hb4.
  injection H as <-.
  split; [lia|]. split; [lia|].
  rewrite Nat2Z.id. f_equal. lia.
Qed.

Lemma fold_left_Rplus_snoc (l : list R) (x a : R) :
  fold_left Rplus (l ++ [x]) a = fold_left Rplus l a + x.
Proof. rewrite fold_left_app. reflexivity. Qed.

Lemma elem_mat_of_mem (r c : nat) (mem : vec) (i j : nat) :
  (i < r)%nat -> (j < c)%nat ->
  elem (mat_of_mem r c mem) i j = nth (i + j * r) mem 0.
Proof.
  intros Hi Hj. unfold elem, mcol, mat_of_mem; simpl.
  rewrite (nth_map_seq vec _ _ _ [] Hj).
  rewrite nth_firstn. apply Nat.ltb_lt in Hi. rewrite Hi.
  rewrite nth_skipn_shift. f_equal. lia.
Qed.

Lemma elem_symmatu (X : mat) (i k : nat) :
  (i < n_rows X)%nat -> (k < n_rows X)%nat ->
  elem (symmatu X) i k = if (i <=? k)%nat then elem X i k else elem X k i.
Proof.
  intros Hi Hk. unfold elem at 1, mcol, symmatu. cbv zeta. simpl cols.
  rewrite (nth_map_seq vec _ _ _ [] Hk), (nth_map_seq R _ _ _ 0 Hi).
  reflexivity.
Qed.

Lemma clamp_neg_Rmax (x : R) : clamp_neg x = Rmax 0 x.
Proof. unfold clamp_neg, Rmax. destruct (Rlt_dec x 0), (Rle_dec 0 x); lra. Qed.

Lemma nth_map_lt (f : R -> R) (l : vec) (i : nat) :
  (i < length l)%nat -> nth i (map f l) 0 = f (nth i l 0).
Proof.
  intros Hi. rewrite (nth_indep _ 0 (f 0)) by (rewrite length_map; exact Hi).
  apply map_nth.
Qed.

(** A dot product written out as the sum of the products of the entries. *)
Lemma dot_nth_sum (a b : vec) :
  length a = length b ->
  dot a b =
    fold_right Rplus 0 (map (fun e => nth e a 0 * nth e b 0) (seq 0 (length a))).
Proof.
  revert b; induction a as [|x a IH]; intros [|y b] H; simpl in H;
    try discriminate; [reflexivity|].
  rewrite dot_cons. simpl. rewrite <- seq_shift, map_map.
  rewrite (IH b) by lia. reflexivity.
Qed.

(** Entry [i] of a matrix-vector product of matching sizes, written out. *)
Lemma nth_mat_vec (M : mat) (v : vec) (i : nat) :
  (i < n_rows M)%nat -> n_cols M = length v ->
  nth i (mat_vec M v) 0 =
    fold_right Rplus 0
      (map (fun k => elem M i k * nth k v 0) (seq 0 (n_cols M))).
Proof.
  intros Hi Hlen. unfold mat_vec.
  rewrite (nth_map_seq R _ _ _ 0 Hi).
  assert (Hr : length (mrow M i) = n_cols M)
    by (unfold mrow; apply length_map).
  rewrite dot_nth_sum by (rewrite Hr; exact Hlen).
  rewrite Hr. apply f_equal, map_ext. intros k. now rewrite nth_mrow.
Qed.

Lemma Forall_zero_nth (v : vec) (i : nat) :
  Forall (fun x => x = 0) v -> nth i v 0 = 0.
Proof.
  intros H. destruct (Nat.lt_ge_cases i (length v)) as [Hi|Hi].
  - rewrite Forall_forall in H. apply H, nth_In, Hi.
  - apply nth_overflow, Hi.
Qed.

(** ** Infinities and NaN after the exponential *)

Module IeeeFacts.
Import Ieee.









End IeeeFacts.

(** ** pars2lnapars *)

Module ParsWriterFacts.
Import ParsWriter Samples.

Lemma each_row_assign_cols (lnapars : mat) (parameters : vec) :
  (length parameters <= n_cols lnapars)%nat ->
  n_cols (each_row_assign lnapars parameters) = n_cols lnapars.
Proof.
  unfold n_cols, each_row_assign; simpl; intros H.
  rewrite length_app, length_map, length_skipn. lia.
Qed.

Lemma each_row_assign_head (lnapars : mat) (parameters : vec) (i j : nat) :
  (i < n_rows lnapars)%nat -> (j < length parameters)%nat ->
  elem (each_row_assign lnapars parameters) i j = nth j parameters 0.
Proof.
  intros Hi Hj. unfold elem, mcol, each_row_assign; simpl.
  rewrite app_nth1 by (rewrite length_map; exact Hj).
  rewrite (nth_indep _ [] (repeat 0 (n_rows lnapars)))
    by (rewrite length_map; exact Hj).
  rewrite (map_nth (fun p => repeat p (n_rows lnapars)) parameters 0 j).
  apply nth_repeat_lt; exact Hi.
Qed.

Lemma each_row_assign_tail (lnapars : mat) (parameters : vec) (j : nat) :
  (length parameters <= j)%nat ->
  mcol (each_row_assign lnapars parameters) j = mcol lnapars j.
Proof.
  intros Hj. unfold mcol, each_row_assign; simpl.
  rewrite app_nth2 by (rewrite length_map; exact Hj).
  rewrite length_map, nth_skipn_shift. f_equal. lia.
Qed.

(** C9 (as amended): for a parameter vector with at least one entry and no
    more entries than the matrix has columns, pars2lnapars returns nothing,
    keeps the shape of the matrix, sets entry (i, j) to parameters[j] for
    every row i and every j < len(parameters), and leaves every column of
    index len(parameters) or more as it was. *)
Theorem pars2lnapars_broadcast (lnapars : mat) (parameters : vec) :
  (1 <= length parameters)%nat ->
  writer_contract lnapars parameters.
Proof.
  intros Hpos Hle.
  exists (each_row_assign lnapars parameters).
  split; [|split; [|split; [|split]]].
  - unfold pars2lnapars, cols_in_bounds.
    replace (_ && _ && _ && _)%bool with true; [reflexivity|].
    symmetry. repeat (apply andb_true_intro; split);
      first [apply Z.leb_le | apply Z.ltb_lt]; unfold n_cols in *; lia.
  - reflexivity.
  - apply each_row_assign_cols; exact Hle.
  - intros i j; apply each_row_assign_head.
  - intros j; apply each_row_assign_tail.
Qed.

Lemma pars2lnapars_broadcast_witness :
  (1 <= length [7; 8])%nat /\ writer_contract sample_pars [7; 8].
Proof.
  split; [simpl; lia|].
  apply (pars2lnapars_broadcast sample_pars [7; 8]); simpl; lia.
Defined.

(** C9 (as stated) fails on the empty parameter vector: its length, 0, does
    not exceed the column count, yet the call leaves through the bounds check
    of [cols(0, -1)] instead of returning. *)
Lemma pars2lnapars_empty_vector_raises :
  pars2lnapars sample_pars [] = Raised IndexOutOfBounds /\
  ~ writer_contract sample_pars [].
Proof.
  split; [reflexivity|].
  intros H. destruct H as [M' [Heq _]]; [simpl; lia|].
  discriminate Heq.
Qed.

End ParsWriterFacts.

(** ** propose_lna *)

Module ProposerFacts.
Import Proposer.

Section ProposerFacts.

Variable integrate_stem_lna : vec -> vec -> R -> R -> R -> vec.
Variable chol_lower : mat -> option mat.
Variable randn : nat -> nat -> R.
Variable lna_times : vec.
Variable lna_pars : mat.
Variable init_start : nat.
Variable param_update_inds : list bool.
Variable stoich_matrix : mat.

Local Abbreviation n_events := (n_events stoich_matrix).
Local Abbreviation n_comps := (n_comps stoich_matrix).
Local Abbreviation n_times := (n_times lna_times).
Local Abbreviation draws := (draws randn lna_times stoich_matrix).
Local Abbreviation initialise :=
  (initialise lna_times lna_pars init_start stoich_matrix).
Local Abbreviation integrated := (integrated integrate_stem_lna lna_times stoich_matrix).
Local Abbreviation integrated_drift :=
  (integrated_drift integrate_stem_lna lna_times stoich_matrix).
Local Abbreviation integrated_diffusion :=
  (integrated_diffusion integrate_stem_lna lna_times stoich_matrix).
Local Abbreviation interval :=
  (interval integrate_stem_lna chol_lower randn lna_times lna_pars init_start
            param_update_inds stoich_matrix).
Local Abbreviation run :=
  (run integrate_stem_lna chol_lower randn lna_times lna_pars init_start
       param_update_inds stoich_matrix).
Local Abbreviation path_shape := (path_shape lna_times stoich_matrix).
Local Abbreviation propose_lna :=
  (propose_lna integrate_stem_lna chol_lower randn lna_times lna_pars
               init_start param_update_inds stoich_matrix).

(** The initial volumes: [n_comps] entries of parameter row 0, from
    [init_start] on. *)
Local Abbreviation row0_volumes :=
  (firstn n_comps (skipn init_start (mrow lna_pars 0))).

Lemma run_succ (k : nat) : run (S k) = bind (run k) (interval k).
Proof.
  unfold Proposer.run. rewrite seq_S, Nat.add_0_l.
  destruct initialise as [st0|e]; simpl; [|reflexivity].
  rewrite for_each_app. destruct (for_each (seq 0 k) _ st0); simpl;
    [apply bind_ret_r | reflexivity].
Qed.

Lemma run_prefix (k j : nat) (st : state) :
  run k = Returned st -> (j <= k)%nat -> exists st_j, run j = Returned st_j.
Proof.
  revert st; induction k as [|k IH]; intros st Hrun Hj.
  - assert (j = 0)%nat by lia; subst; eauto.
  - destruct (Nat.eq_dec j (S k)) as [->|Hne]; [eauto|].
    rewrite run_succ in Hrun. apply bind_returned in Hrun.
    destruct Hrun as [st_k [Hk _]]. apply (IH st_k Hk). lia.
Qed.

(** What one iteration of the loop has done when it returns. *)
Lemma interval_returned (j : nat) (st st' : state) :
  interval j st = Returned st' ->
  exists L cp update,
    chol_lower (symmatu (integrated_diffusion j st)) = Some L /\
    lna_state_vec st' = integrated j st /\
    lna_drift st' = integrated_drift j st /\
    lna_diffusion st' = symmatu (integrated_diffusion j st) /\
    n_cols L = length (mcol draws j) /\
    length (integrated_drift j st) = length (mat_vec L (mcol draws j)) /\
    log_lna st' = vadd (integrated_drift j st) (mat_vec L (mcol draws j)) /\
    nat_lna st' = map clamp_neg (map (fun x => exp x - 1) (log_lna st')) /\
    length (c_incid st) = length (nat_lna st') /\
    c_incid st' = vadd (c_incid st) (nat_lna st') /\
    set_col_span_checked (lna_path st) 1 n_events (j + 1) (c_incid st')
      = Returned (lna_path st') /\
    n_events = length (c_incid st') /\
    length (init_state st) = n_comps /\
    init_volumes st' =
      map clamp_neg (vadd (init_state st)
                          (mat_vec stoich_matrix (c_incid st'))) /\
    init_state st' = init_state st /\
    flag_at param_update_inds (j + 1) = Returned update /\
    (if update then rcpp_row lna_pars (j + 1)
     else Returned (current_params st)) = Returned cp /\
    (init_start + length (init_volumes st') <= length cp)%nat /\
    current_params st' = copy_into (init_volumes st') cp init_start /\
    ode_pars st' = current_params st' /\
    pushed st' = pushed st ++ [current_params st'].
Proof.
  unfold Proposer.interval.
  destruct (chol_lower (symmatu (integrated_diffusion j st))) as [L|] eqn:HL;
    [|discriminate].
  intros H.
  apply bind_returned in H; destruct H as [Ld [HLd H]].
  apply bind_returned in H; destruct H as [lg [Hlg H]].
  apply bind_returned in H; destruct H as [c [Hc H]].
  apply bind_returned in H; destruct H as [P [HP H]].
  apply bind_returned in H; destruct H as [Sc [HSc H]].
  apply bind_returned in H; destruct H as [sv [Hsv H]].
  apply bind_returned in H; destruct H as [update [Hup H]].
  apply bind_returned in H; destruct H as [cp [Hcp H]].
  apply bind_returned in H; destruct H as [u [Hfit H]].
  apply check_returned, Nat.leb_le in Hfit.
  injection H as <-. simpl.
  apply mat_vec_checked_returned in HLd; destruct HLd as [HLd1 ->].
  apply vadd_checked_returned in Hlg; destruct Hlg as [Hlg1 ->].
  apply vadd_checked_returned in Hc; destruct Hc as [Hc1 ->].
  apply mat_vec_checked_returned in HSc; destruct HSc as [HSc1 ->].
  apply vadd_checked_returned in Hsv; destruct Hsv as [Hsv1 ->].
  rewrite mat_vec_length in Hsv1.
  exists L, cp, update.
  repeat (split; [solve [auto] |]); auto.
Qed.

Lemma initialise_returned (st0 : state) :
  initialise = Returned st0 ->
  (1 <= n_times)%nat /\
  (0 < n_rows lna_pars)%nat /\
  (init_start + n_comps <= n_cols lna_pars)%nat /\
  current_params st0 = mrow lna_pars 0 /\
  init_state st0 = row0_volumes /\
  c_incid st0 = zeros n_events /\
  ode_pars st0 = mrow lna_pars 0 /\
  pushed st0 = [mrow lna_pars 0] /\
  path_shape (lna_path st0) /\
  mcol (lna_path st0) 0 = nth 0 lna_times 0 :: zeros n_events.
Proof.
  unfold Proposer.initialise, rcpp_row, set_row_checked. intros H.
  apply bind_returned in H; destruct H as [cp [Hcp H]].
  apply bind_returned in Hcp; destruct Hcp as [u0 [Hrow Hcp]].
  injection Hcp as <-.
  apply check_returned, Nat.ltb_lt in Hrow.
  apply bind_returned in H; destruct H as [u1 [Hfit H]].
  apply check_returned, Nat.leb_le in Hfit.
  apply bind_returned in H; destruct H as [P [HP H]].
  apply bind_returned in HP; destruct HP as [u2 [_ HP]].
  apply bind_returned in HP; destruct HP as [u3 [_ HP]].
  injection HP as <-.
  apply bind_returned in H; destruct H as [u4 [Hn H]].
  apply check_returned, Nat.leb_le in Hn.
  injection H as <-. simpl.
  assert (Hcol : forall j, (j < n_times)%nat ->
            mcol (set_row (zeros_mat (n_events + 1) n_times) 0 lna_times) j
            = nth j lna_times 0 :: zeros n_events).
  { intros j Hj. unfold mcol, set_row, zeros_mat; simpl.
    rewrite (nth_map_combine _ _ _ _ _ _ _ (zeros (n_events + 1)) 0)
      by (rewrite ?repeat_length; auto).
    rewrite nth_repeat_lt by exact Hj. simpl.
    rewrite zeros_succ. reflexivity. }
  unfold mrow in Hfit. rewrite length_map in Hfit.
  repeat (split; [solve [auto] |]).
  split; [|apply Hcol; lia].
  unfold Proposer.path_shape. split; [reflexivity|]. split.
  - unfold n_cols, set_row, zeros_mat; simpl.
    rewrite length_map, length_combine, repeat_length.
    apply Nat.min_id.
  - intros j Hj. exists (zeros n_events). split; [apply Hcol; exact Hj|].
    apply zeros_length.
Qed.

Lemma set_col_span_returned (P P' : mat) (j : nat) (c : vec) :
  path_shape P ->
  set_col_span_checked P 1 n_events (j + 1) c = Returned P' ->
  (j + 1 < n_times)%nat /\ length c = n_events /\
  path_shape P' /\
  mcol P' (j + 1) = nth (j + 1) lna_times 0 :: c /\
  forall i, i <> (j + 1)%nat -> mcol P' i = mcol P i.
Proof.
  intros [Hr [Hc Hcols]] H. unfold set_col_span_checked in H.
  apply bind_returned in H; destruct H as [u0 [Hb H]].
  apply check_returned in Hb.
  apply andb_prop in Hb; destruct Hb as [Hb Hb3].
  apply andb_prop in Hb; destruct Hb as [Hb1 Hb2].
  apply Nat.ltb_lt in Hb1, Hb3. apply Nat.leb_le in Hb2.
  apply bind_returned in H; destruct H as [u1 [Hs H]].
  apply check_returned, Nat.eqb_eq in Hs.
  injection H as <-.
  assert (Hlen : length c = n_events) by lia.
  rewrite Hc in Hb1.
  assert (Hnew : mcol (mkMat (n_rows P)
                         (upd (j + 1) (copy_into c (mcol P (j + 1)) 1) (cols P)))
                      (j + 1) = nth (j + 1) lna_times 0 :: c).
  { unfold mcol at 1; simpl.
    rewrite nth_upd_same by (fold (n_cols P); lia).
    destruct (Hcols _ Hb1) as [tl [-> Htl]].
    unfold copy_into; simpl.
    rewrite skipn_all2 by lia. now rewrite app_nil_r. }
  assert (Hother : forall i, i <> (j + 1)%nat ->
            mcol (mkMat (n_rows P)
                    (upd (j + 1) (copy_into c (mcol P (j + 1)) 1) (cols P))) i
            = mcol P i).
  { intros i Hi. unfold mcol at 1; simpl.
    rewrite nth_upd_other by auto. reflexivity. }
  split; [exact Hb1|]. split; [exact Hlen|].
  split; [|split; [exact Hnew | exact Hother]].
  split; [exact Hr|]. split.
  - unfold n_cols; simpl. rewrite upd_length. exact Hc.
  - intros i Hi. destruct (Nat.eq_dec i (j + 1)) as [->|Hne].
    + exists c. split; [exact Hnew | exact Hlen].
    + rewrite (Hother i Hne). apply Hcols; exact Hi.
Qed.

(** The loop invariant: the fields below hold after any number of
    intervals. *)
Lemma run_invariant (k : nat) (st : state) :
  run k = Returned st ->
  (k < n_times)%nat /\
  path_shape (lna_path st) /\
  length (c_incid st) = n_events /\
  init_state st = row0_volumes /\
  (forall j st_j, (j <= k)%nat -> run j = Returned st_j ->
                  mcol (lna_path st) j = nth j lna_times 0 :: c_incid st_j).
Proof.
  revert st; induction k as [|k IH]; intros st Hrun.
  - assert (Hinit : initialise = Returned st).
    { unfold Proposer.run in Hrun. destruct initialise; simpl in Hrun; auto. }
    destruct (initialise_returned _ Hinit)
      as (Hn & _ & _ & _ & His & Hc & _ & _ & Hshape & Hcol0).
    split; [lia|]. split; [exact Hshape|].
    split; [rewrite Hc; apply zeros_length|].
    split; [exact His|].
    intros j st_j Hj Hrj. assert (j = 0)%nat by lia; subst j.
    rewrite Hrj in Hrun; injection Hrun as ->.
    rewrite Hcol0, Hc. reflexivity.
  - pose proof Hrun as Hrun'.
    rewrite run_succ in Hrun. apply bind_returned in Hrun.
    destruct Hrun as [st_k [Hk Hstep]].
    destruct (IH st_k Hk) as (Hlt & Hshape & Hlen & His & Hhist).
    destruct (interval_returned _ _ _ Hstep)
      as (L & cp & update & _ & _ & _ & _ & _ & _ & _ & _ & _ & Hc & HP
          & Hclen & _ & _ & His' & _).
    destruct (set_col_span_returned _ _ _ _ Hshape HP)
      as (Hlt' & _ & Hshape' & Hnew & Hother).
    split; [lia|]. split; [exact Hshape'|].
    split; [symmetry; exact Hclen|].
    split; [congruence|].
    intros j st_j Hj Hrj.
    destruct (Nat.eq_dec j (S k)) as [->|Hne].
    + rewrite Hrj in Hrun'; injection Hrun' as ->.
      replace (S k) with (k + 1)%nat by lia. exact Hnew.
    + rewrite Hother by lia. apply Hhist; [lia | exact Hrj].
Qed.


Lemma propose_lna_returned (out : proposal) :
  propose_lna = Returned out ->
  exists st, run (n_times - 1) = Returned st /\
             out = mkProposal draws (transpose (lna_path st)).
Proof.
  unfold Proposer.propose_lna. intros H.
  apply bind_returned in H; destruct H as [st [Hrun H]].
  injection H as <-. eauto.
Qed.

(** Row [j] of the returned path is the time point followed by the
    cumulative incidence after [j] intervals. *)
Lemma returned_path_row (out : proposal) (j : nat) (st_j : state) :
  propose_lna = Returned out -> (j < n_times)%nat ->
  run j = Returned st_j ->
  mrow (out_lna_path out) j = nth j lna_times 0 :: c_incid st_j.
Proof.
  intros Hout Hj Hrj.
  destruct (propose_lna_returned _ Hout) as [st [Hrun ->]]. simpl.
  destruct (run_invariant _ _ Hrun) as (_ & Hshape & _ & _ & Hhist).
  rewrite mrow_transpose.
  - apply Hhist; [lia | exact Hrj].
  - destruct Hshape as (Hr & _ & Hcols).
    destruct (Hcols j Hj) as [tl [-> Htl]]. simpl. lia.
Qed.

Lemma run_step (j : nat) (st' : state) :
  run (S j) = Returned st' ->
  exists st, run j = Returned st /\ interval j st = Returned st'.
Proof. rewrite run_succ. apply bind_returned. Qed.

Lemma run_raised (j m : nat) (st : state) (e : failure) :
  run j = Returned st -> interval j st = Raised e -> (j < m)%nat ->
  run m = Raised e.
Proof.
  intros Hrj He. induction m as [|m IH]; intros Hlt; [lia|].
  rewrite run_succ.
  destruct (Nat.eq_dec j m) as [<-|Hne].
  - rewrite Hrj. exact He.
  - rewrite IH by lia. reflexivity.
Qed.

(** The volumes an interval writes into the parameter vector and pushes. *)
Lemma volumes_written (k : nat) (st st' : state) :
  run k = Returned st -> interval k st = Returned st' ->
  init_volumes st' =
    map clamp_neg (vadd row0_volumes (mat_vec stoich_matrix (c_incid st'))) /\
  length (init_volumes st') = n_comps /\
  firstn n_comps (skipn init_start (current_params st')) = init_volumes st' /\
  ode_pars st' = current_params st' /\
  pushed st' = pushed st ++ [current_params st'].
Proof.
  intros Hrun Hstep.
  destruct (run_invariant _ _ Hrun) as (_ & _ & _ & His & _).
  destruct (interval_returned _ _ _ Hstep)
    as (L & cp & update & _ & _ & _ & _ & _ & _ & _ & _ & _ & _ & _
        & Hcl & Hil & Hvol & _ & _ & _ & Hfit & Hcp & Hode & Hpush).
  rewrite His in Hvol.
  assert (Hlen : length (init_volumes st') = n_comps).
  { rewrite Hvol, length_map, vadd_length; rewrite <- His.
    - exact Hil.
    - rewrite mat_vec_length. exact Hil. }
  repeat split; auto.
  rewrite Hcp, <- Hlen. apply copy_into_segment. exact Hfit.
Qed.

(** C1: on a run that returns, for every interval j the log-scale increment
    is the integrated drift plus the lower Cholesky factor of the symmetrised
    diffusion matrix times column j of the draws; the natural-scale increment
    is exp of it minus 1 with negative entries set to 0; the cumulative
    incidence is the previous one plus that clamped increment; and row j+1 of
    the returned path is the time point followed by this cumulative
    incidence.  Entry by entry: the buffer is what the integrator returns
    from zeros over the interval, the diffusion matrix reads the upper
    triangle of its tail, log_lna(e) is buffer(e) plus the sum over k of
    L(e,k) * draws(k,j), nat_lna(e) is the larger of 0 and
    exp(log_lna(e)) - 1, and the path at row j+1 is the path at row j plus
    nat_lna(e). *)
Theorem propose_lna_interval_recurrence (out : proposal) (j : nat) :
  propose_lna = Returned out -> (j < n_times - 1)%nat ->
  exists st st' L,
    run j = Returned st /\ interval j st = Returned st' /\
    chol_lower (symmatu (integrated_diffusion j st)) = Some L /\
    mcol draws j = map (fun i => randn i j) (seq 0 n_events) /\
    length (integrated_drift j st) = n_events /\
    length (mat_vec L (mcol draws j)) = n_events /\
    log_lna st' = vadd (integrated_drift j st) (mat_vec L (mcol draws j)) /\
    nat_lna st' = map clamp_neg (map (fun x => exp x - 1) (log_lna st')) /\
    length (nat_lna st') = n_events /\
    length (c_incid st) = n_events /\
    c_incid st' = vadd (c_incid st) (nat_lna st') /\
    mrow (out_lna_path out) (j + 1) = nth (j + 1) lna_times 0 :: c_incid st' /\
    lna_state_vec st' =
      integrate_stem_lna (ode_pars st)
                         (repeat 0 (n_events + n_events * n_events))
                         (nth j lna_times 0) (nth (j + 1) lna_times 0)
                         (1 / 1000) /\
    chol_lower (lna_diffusion st') = Some L /\
    (forall a b, (a < n_events)%nat -> (b < n_events)%nat ->
       elem (lna_diffusion st') a b =
         nth (n_events + (Nat.min a b + Nat.max a b * n_events))
             (lna_state_vec st') 0) /\
    forall e, (e < n_events)%nat ->
      nth e (log_lna st') 0 =
        nth e (lna_state_vec st') 0 +
        fold_right Rplus 0
          (map (fun k => elem L e k * randn k j) (seq 0 n_events)) /\
      nth e (nat_lna st') 0 = Rmax 0 (exp (nth e (log_lna st') 0) - 1) /\
      elem (out_lna_path out) j (e + 1) = nth e (c_incid st) 0 /\
      elem (out_lna_path out) (j + 1) (e + 1) =
        elem (out_lna_path out) j (e + 1) + nth e (nat_lna st') 0.
Proof.
  intros Hout Hj.
  destruct (propose_lna_returned _ Hout) as [st_end [Hend _]].
  destruct (run_prefix _ (S j) _ Hend) as [st' Hrun']; [lia|].
  destruct (run_step _ _ Hrun') as [st [Hrun Hstep]].
  destruct (run_invariant _ _ Hrun) as (_ & _ & Hlen & _ & _).
  destruct (interval_returned _ _ _ Hstep)
    as (L & cp & update & HL & Hbuf & _ & Hdiff & HLc & Hdl & Hlog & Hnat & Hcn
        & Hc & _).
  exists st, st', L.
  assert (Hnl : length (nat_lna st') = n_events) by congruence.
  assert (Hll : length (log_lna st') = n_events).
  { rewrite Hnat, !length_map in Hnl. exact Hnl. }
  assert (Hdr : length (integrated_drift j st) = n_events).
  { rewrite Hlog, vadd_length in Hll by exact Hdl. exact Hll. }
  assert (Hdraw : mcol draws j = map (fun i => randn i j) (seq 0 n_events)).
  { unfold mcol, Proposer.draws; simpl.
    apply (nth_map_seq _ (fun j0 => map (fun i => randn i j0) (seq 0 n_events))).
    exact Hj. }
  assert (Hrow' : mrow (out_lna_path out) (j + 1)
                  = nth (j + 1) lna_times 0 :: c_incid st').
  { replace (j + 1)%nat with (S j) by lia.
    apply returned_path_row; [exact Hout | lia | exact Hrun']. }
  assert (Hrow : mrow (out_lna_path out) j = nth j lna_times 0 :: c_incid st).
  { apply returned_path_row; [exact Hout | lia | exact Hrun]. }
  assert (HLr : n_rows L = n_events).
  { rewrite <- Hdr, Hdl. symmetry. apply mat_vec_length. }
  split; [exact Hrun|]. split; [exact Hstep|]. split; [exact HL|].
  split; [exact Hdraw|]. split; [exact Hdr|].
  split; [rewrite <- Hdl; exact Hdr|].
  split; [exact Hlog|]. split; [exact Hnat|]. split; [exact Hnl|].
  split; [exact Hlen|]. split; [exact Hc|]. split; [exact Hrow'|].
  split; [rewrite Hbuf; reflexivity|].
  split; [rewrite Hdiff; exact HL|].
  split.
  { intros a b Ha Hb. rewrite Hdiff, Hbuf.
    rewrite elem_symmatu by assumption.
    unfold Proposer.integrated_diffusion.
    destruct (Nat.leb_spec a b).
    - rewrite elem_mat_of_mem by assumption. rewrite nth_skipn_shift.
      rewrite Nat.min_l, Nat.max_r by lia. reflexivity.
    - rewrite elem_mat_of_mem by assumption. rewrite nth_skipn_shift.
      rewrite Nat.min_r, Nat.max_l by lia. reflexivity. }
  intros e He.
  assert (E1 : elem (out_lna_path out) j (e + 1) = nth e (c_incid st) 0).
  { rewrite <- nth_mrow, Hrow. replace (e + 1)%nat with (S e) by lia.
    reflexivity. }
  split.
  { rewrite Hlog, nth_vadd by exact Hdl. f_equal.
    - unfold Proposer.integrated_drift. rewrite nth_firstn.
      rewrite (proj2 (Nat.ltb_lt e n_events) He). rewrite Hbuf. reflexivity.
    - rewrite nth_mat_vec; [|lia | exact HLc].
      rewrite HLc, Hdraw, length_map, length_seq.
      apply f_equal, map_ext_in. intros k Hk. apply in_seq in Hk.
      rewrite (nth_map_seq R (fun i => randn i j) _ _ 0) by lia.
      reflexivity. }
  split.
  { rewrite Hnat.
    rewrite nth_map_lt by (rewrite length_map; lia).
    rewrite nth_map_lt by lia. apply clamp_neg_Rmax. }
  split; [exact E1|].
  rewrite E1, <- nth_mrow, Hrow'. replace (e + 1)%nat with (S e) by lia.
  simpl. rewrite Hc. apply nth_vadd. exact Hcn.
Qed.

(** C2: on a run that returns, every cumulative-incidence column of the
    returned path (column e+1 for event e) does not decrease from one time
    point to the next. *)
Theorem propose_lna_path_monotone (out : proposal) (e j : nat) :
  propose_lna = Returned out ->
  (e < n_events)%nat -> (j + 1 < n_times)%nat ->
  elem (out_lna_path out) j (e + 1) <= elem (out_lna_path out) (j + 1) (e + 1).
Proof.
  intros Hout He Hj.
  destruct (propose_lna_returned _ Hout) as [st_end [Hend _]].
  destruct (run_prefix _ (S j) _ Hend) as [st' Hrun']; [lia|].
  destruct (run_step _ _ Hrun') as [st [Hrun Hstep]].
  destruct (interval_returned _ _ _ Hstep)
    as (L & cp & update & _ & _ & _ & _ & _ & _ & _ & Hnat & Hcn & Hc & _).
  rewrite <- !nth_mrow.
  rewrite (returned_path_row out j st) by (auto; lia).
  replace (j + 1)%nat with (S j) by lia.
  rewrite (returned_path_row out (S j) st') by (auto; lia).
  replace (e + 1)%nat with (S e) by lia. simpl.
  rewrite Hc, nth_vadd by exact Hcn.
  rewrite Hnat.
  pose proof (nth_map_clamp_nonneg (map (fun x => exp x - 1) (log_lna st')) e).
  lra.
Qed.


(** C4, amended: under what a Cholesky factorisation guarantees when it
    returns (L * L.t() is the matrix and the diagonal of L is positive), an
    interval whose integrated drift vector and integrated diffusion matrix
    are both zero does not complete: the factorisation refuses the zero
    matrix, the call ends in the numerical failure and no increment is
    produced for that interval.  An interval that does complete never has a
    negative natural-scale increment. *)
Theorem propose_lna_zero_diffusion_refused (j : nat) (st : state) :
  chol_positive_definite chol_lower ->
  run j = Returned st -> (j < n_times - 1)%nat -> (1 <= n_events)%nat ->
  Forall (fun x => x = 0) (integrated_drift j st) ->
  (forall i k, elem (integrated_diffusion j st) i k = 0) ->
  chol_lower (symmatu (integrated_diffusion j st)) = None /\
  interval j st = Raised NumericalFailure /\
  propose_lna = Raised NumericalFailure /\
  (forall out, propose_lna <> Returned out) /\
  (forall m s s' e, interval m s = Returned s' -> 0 <= nth e (nat_lna s') 0).
Proof.
  intros [Hfac Hpos] Hrun Hj Hev _ Hdiff.
  assert (Hchol : chol_lower (symmatu (integrated_diffusion j st)) = None).
  { destruct (chol_lower (symmatu (integrated_diffusion j st))) as [L|] eqn:HL;
      [exfalso | reflexivity].
    destruct (Hfac _ _ HL) as [_ Hdot].
    assert (H0 : (0 < n_rows (symmatu (integrated_diffusion j st)))%nat)
      by (simpl; lia).
    pose proof (Hpos _ _ HL 0%nat H0) as Hdiag.
    pose proof (Hdot 0%nat 0%nat H0 H0) as Hzero.
    rewrite elem_symmatu_diag in Hzero by (simpl; lia).
    rewrite Hdiff in Hzero.
    apply dot_self_zero in Hzero.
    pose proof (Forall_zero_nth _ 0 Hzero) as Hentry.
    rewrite nth_mrow in Hentry. lra. }
  assert (Hstep : interval j st = Raised NumericalFailure).
  { unfold Proposer.interval. rewrite Hchol. reflexivity. }
  assert (H : propose_lna = Raised NumericalFailure).
  { unfold Proposer.propose_lna.
    rewrite (run_raised j (n_times - 1) st NumericalFailure Hrun Hstep Hj).
    reflexivity. }
  split; [exact Hchol|]. split; [exact Hstep|]. split; [exact H|].
  split; [intros out Hout; rewrite H in Hout; discriminate|].
  intros m s s' e Hs.
  destruct (interval_returned _ _ _ Hs)
    as (_ & _ & _ & _ & _ & _ & _ & _ & _ & _ & Hnat & _).
  rewrite Hnat. apply nth_map_clamp_nonneg.
Qed.

(** C5: when the Cholesky factorisation of the symmetrised diffusion matrix
    fails at an interval the loop reaches, the call ends in the numerical
    failure and returns no path. *)
Theorem propose_lna_chol_failure (j : nat) (st : state) :
  run j = Returned st -> (j < n_times - 1)%nat ->
  chol_lower (symmatu (integrated_diffusion j st)) = None ->
  propose_lna = Raised NumericalFailure /\
  forall out, propose_lna <> Returned out.
Proof.
  intros Hrun Hj Hchol.
  assert (Hstep : interval j st = Raised NumericalFailure).
  { unfold Proposer.interval. rewrite Hchol. reflexivity. }
  assert (H : propose_lna = Raised NumericalFailure).
  { unfold Proposer.propose_lna.
    rewrite (run_raised j (n_times - 1) st NumericalFailure Hrun Hstep Hj).
    reflexivity. }
  split; [exact H|]. intros out Hout. rewrite H in Hout. discriminate.
Qed.

(** C8: when every update flag after index 0 is false, an interval takes the
    current parameter vector as it is (no row of the table is loaded),
    overwrites its volume columns with the volumes just computed and pushes
    it to the callback; outside the volume columns the vector still equals
    parameter row 0. *)
Theorem propose_lna_parameters_kept (k : nat) (st st' : state) :
  (forall i, (1 <= i)%nat -> nth i param_update_inds false = false) ->
  run k = Returned st -> interval k st = Returned st' ->
  current_params st' =
    copy_into (init_volumes st') (current_params st) init_start /\
  init_volumes st' =
    map clamp_neg (vadd row0_volumes (mat_vec stoich_matrix (c_incid st'))) /\
  firstn n_comps (skipn init_start (current_params st')) = init_volumes st' /\
  pushed st' = pushed st ++ [current_params st'] /\
  length (pushed st') = (k + 2)%nat /\
  length (current_params st') = n_cols lna_pars /\
  forall i, (i < init_start \/ init_start + n_comps <= i)%nat ->
            nth i (current_params st') 0 = nth i (mrow lna_pars 0) 0.
Proof.
  intros Hflags. revert st st'.
  assert (Hkeep : forall k st, run k = Returned st ->
            length (pushed st) = (k + 1)%nat /\
            length (current_params st) = n_cols lna_pars /\
            forall i, (i < init_start \/ init_start + n_comps <= i)%nat ->
                      nth i (current_params st) 0 = nth i (mrow lna_pars 0) 0).
  { clear k. induction k as [|k IH]; intros st Hrun.
    - assert (Hinit : initialise = Returned st).
      { unfold Proposer.run in Hrun. destruct initialise; simpl in Hrun; auto. }
      destruct (initialise_returned _ Hinit)
        as (_ & _ & _ & Hcp & _ & _ & _ & Hp & _).
      rewrite Hcp, Hp. unfold mrow. rewrite length_map. auto.
    - destruct (run_step _ _ Hrun) as [st0 [Hrun0 Hstep]].
      destruct (IH _ Hrun0) as (Hpl & Hlen & Hout).
      destruct (volumes_written _ _ _ Hrun0 Hstep)
        as (_ & Hvl & _ & _ & Hpush).
      destruct (interval_returned _ _ _ Hstep)
        as (L & cp & update & _ & _ & _ & _ & _ & _ & _ & _ & _ & _ & _
            & _ & _ & _ & _ & Hflag & Hload & Hfit & Hcp & _).
      unfold flag_at in Hflag.
      apply bind_returned in Hflag; destruct Hflag as [u [_ Hflag]].
      injection Hflag as <-. rewrite Hflags in Hload by lia.
      injection Hload as <-.
      split; [rewrite Hpush, length_app, Hpl; simpl; lia|].
      split; [rewrite Hcp, copy_into_length; assumption|].
      intros i Hi. rewrite Hcp. rewrite <- (Hout i Hi).
      destruct Hi as [Hi|Hi].
      + apply copy_into_before; assumption.
      + apply copy_into_after; [assumption | lia]. }
  intros st st' Hrun Hstep.
  assert (Hrun' : run (S k) = Returned st').
  { rewrite run_succ, Hrun. exact Hstep. }
  destruct (Hkeep _ _ Hrun') as (Hpl & Hlen & Hout).
  destruct (volumes_written _ _ _ Hrun Hstep) as (Hvol & _ & Hseg & _ & Hpush).
  destruct (interval_returned _ _ _ Hstep)
    as (L & cp & update & _ & _ & _ & _ & _ & _ & _ & _ & _ & _ & _
        & _ & _ & _ & _ & Hflag & Hload & _ & Hcp & _).
  unfold flag_at in Hflag.
  apply bind_returned in Hflag; destruct Hflag as [u [_ Hflag]].
  injection Hflag as <-. rewrite Hflags in Hload by lia.
  injection Hload as <-.
  repeat (split; [solve [auto] |]).
  split; [lia|]. split; assumption.
Qed.

End ProposerFacts.
End ProposerFacts.

(** ** lna_density2 *)

Module EvaluatorFacts.
Import Evaluator.

Section EvaluatorFacts.

Variable integrate_stem_lna : vec -> vec -> R -> R -> R -> vec.
Variable dmvtn : vec -> vec -> mat -> bool -> vec.
Variable path : path_bundle.
Variable lna_times : vec.
Variable lna_pars : mat.
Variable param_update_inds : list bool.
Variable flow_matrix : mat.

Local Abbreviation n_comps := (n_comps flow_matrix).
Local Abbreviation n_times := (n_times lna_times).
Local Abbreviation observed_residual := (observed_residual path flow_matrix).
Local Abbreviation integrated := (integrated integrate_stem_lna lna_times).
Local Abbreviation initialise := (initialise path lna_pars flow_matrix).
Local Abbreviation interval :=
  (interval integrate_stem_lna dmvtn path lna_times lna_pars
            param_update_inds flow_matrix).
Local Abbreviation run :=
  (run integrate_stem_lna dmvtn path lna_times lna_pars
       param_update_inds flow_matrix).
Local Abbreviation lna_density2 :=
  (lna_density2 integrate_stem_lna dmvtn path lna_times lna_pars
                param_update_inds flow_matrix).

(** The density term of index [j], for a given conditional mean. *)
Local Abbreviation log_density j mean :=
  (nth 0 (dmvtn (observed_residual j) mean
                (nth j (diffusion path) (mkMat 0 [])) true) 0).

Lemma density_run_succ (k : nat) : run (S k) = bind (run k) (interval (S k)).
Proof.
  unfold Evaluator.run. rewrite seq_S.
  destruct initialise as [st0|e]; simpl; [|reflexivity].
  rewrite for_each_app. destruct (for_each (seq 1 k) _ st0); simpl;
    [apply bind_ret_r | reflexivity].
Qed.

Lemma density_run_step (k : nat) (st' : state) :
  run (S k) = Returned st' ->
  exists st, run k = Returned st /\ interval (S k) st = Returned st'.
Proof. rewrite density_run_succ. apply bind_returned. Qed.

Lemma density_run_prefix (k j : nat) (st : state) :
  run k = Returned st -> (j <= k)%nat -> exists st_j, run j = Returned st_j.
Proof.
  revert st; induction k as [|k IH]; intros st Hrun Hj.
  - assert (j = 0)%nat by lia; subst; eauto.
  - destruct (Nat.eq_dec j (S k)) as [->|Hne]; [eauto|].
    destruct (density_run_step _ _ Hrun) as [st_k [Hk _]]. apply (IH st_k Hk). lia.
Qed.

Lemma density_run_zero (st0 : state) :
  run 0 = Returned st0 ->
  lna_state_vec st0 = zeros (2 * n_comps) /\
  residual_process st0 = residual path /\
  lna_log_lik st0 = 0 /\
  current_params st0 = mrow lna_pars 0 /\
  ode_pars st0 = mrow lna_pars 0 /\
  pushed st0 = [mrow lna_pars 0].
Proof.
  unfold Evaluator.run, Evaluator.initialise, rcpp_row. simpl. intros H.
  apply bind_returned in H; destruct H as [st [H Hst]].
  injection Hst as <-.
  apply bind_returned in H; destruct H as [cp [Hcp H]].
  apply bind_returned in Hcp; destruct Hcp as [u [_ Hcp]].
  injection Hcp as <-. injection H as <-. simpl. auto 10.
Qed.

Lemma row_span_returned (j : nat) (x : vec) :
  row_span_checked (res_path path) j 1 n_comps = Returned x ->
  x = observed_residual j /\ length x = n_comps.
Proof.
  unfold row_span_checked. intros H.
  apply bind_returned in H; destruct H as [u [Hb H]].
  apply check_returned in Hb.
  apply andb_prop in Hb; destruct Hb as [Hb Hb3].
  apply andb_prop in Hb; destruct Hb as [Hb1 Hb2].
  apply Nat.ltb_lt in Hb1, Hb3. apply Nat.leb_le in Hb2.
  assert (Hlen : length (observed_residual j) = n_comps).
  { unfold Evaluator.observed_residual.
    rewrite length_firstn, length_skipn. unfold mrow. rewrite length_map.
    unfold n_cols in Hb3. lia. }
  replace (n_comps - 1 + 1)%nat with n_comps in H by lia.
  injection H as <-. split; [reflexivity | exact Hlen].
Qed.

(** What one iteration of the loop has done when it returns. *)
Lemma density_interval_returned (j : nat) (st st' : state) :
  interval j st = Returned st' ->
  exists update,
    flag_at param_update_inds (j - 1) = Returned update /\
    (if update
     then (j - 1 < n_rows lna_pars)%nat /\
          current_params st' = mrow lna_pars (j - 1) /\
          pushed st' = pushed st ++ [mrow lna_pars (j - 1)]
     else current_params st' = current_params st /\
          pushed st' = pushed st) /\
    ode_pars st' = (if update then mrow lna_pars (j - 1) else ode_pars st) /\
    let out := integrated j (ode_pars st') (lna_state_vec st) in
    let mean := firstn n_comps (skipn n_comps out) in
    (1 <= n_comps)%nat /\ (2 * n_comps <= length out)%nat /\
    (j < n_rows (residual_process st))%nat /\
    length mean = n_cols (residual_process st) /\
    residual_process st' = set_row (residual_process st) j mean /\
    lna_log_lik st' =
      lna_log_lik st + log_density j (mrow (residual_process st') j) /\
    length (observed_residual j) = n_comps /\
    lna_state_vec st' = copy_into (observed_residual j) out n_comps.
Proof.
  unfold Evaluator.interval. intros H.
  apply bind_returned in H; destruct H as [update [Hup H]].
  apply bind_returned in H; destruct H as [pars [Hpars H]].
  apply bind_returned in H; destruct H as [mean [Hmean H]].
  apply bind_returned in H; destruct H as [rp [Hrp H]].
  apply bind_returned in H; destruct H as [x [Hx H]].
  apply bind_returned in H; destruct H as [sigma [Hsig H]].
  apply bind_returned in H; destruct H as [u [_ H]].
  apply bind_returned in H; destruct H as [res_vec [Hres H]].
  injection H as <-. simpl.
  apply subvec_checked_returned in Hmean. destruct Hmean as (Hn & Hlen & ->).
  unfold set_row_checked in Hrp.
  apply bind_returned in Hrp; destruct Hrp as [u1 [Hj Hrp]].
  apply check_returned, Nat.ltb_lt in Hj.
  apply bind_returned in Hrp; destruct Hrp as [u2 [Hsz Hrp]].
  apply check_returned, Nat.eqb_eq in Hsz. injection Hrp as <-.
  apply row_span_returned in Hx; destruct Hx as [-> Hxl].
  apply row_span_returned in Hres; destruct Hres as [-> _].
  unfold slice_checked in Hsig.
  apply bind_returned in Hsig; destruct Hsig as [u3 [_ Hsig]].
  injection Hsig as <-.
  exists update. split; [exact Hup|].
  destruct update.
  - apply bind_returned in Hpars; destruct Hpars as [row [Hrow Hpars]].
    unfold rcpp_row in Hrow.
    apply bind_returned in Hrow; destruct Hrow as [u4 [Hr Hrow]].
    apply check_returned, Nat.ltb_lt in Hr.
    injection Hrow as <-. injection Hpars as <-. simpl in *.
    repeat (split; [solve [auto] |]); auto.
  - injection Hpars as <-. simpl in *.
    repeat (split; [solve [auto] |]); auto.
Qed.


(** Row [S k] of the residual process right after iteration [S k]: the
    residual part of the buffer just integrated. *)
Lemma fresh_mean (k : nat) (st st' : state) :
  wf_mat (residual_process st) ->
  interval (S k) st = Returned st' ->
  mrow (residual_process st') (S k) =
    firstn n_comps
           (skipn n_comps (integrated (S k) (ode_pars st') (lna_state_vec st))).
Proof.
  intros Hwf Hstep.
  destruct (density_interval_returned _ _ _ Hstep)
    as (update & _ & _ & _ & _ & _ & Hj & Hlen & Hres & _).
  rewrite Hres. apply mrow_set_row_same; assumption.
Qed.

(** The loop invariant. *)
Lemma density_run_invariant (k : nat) (st : state) :
  wf_mat (residual path) ->
  run k = Returned st ->
  wf_mat (residual_process st) /\
  n_rows (residual_process st) = n_rows (residual path) /\
  n_cols (residual_process st) = n_cols (residual path) /\
  (forall i, (i = 0 \/ k < i)%nat ->
             mrow (residual_process st) i = mrow (residual path) i) /\
  (forall j st_j, (1 <= j <= k)%nat -> run j = Returned st_j ->
                  mrow (residual_process st) j = mrow (residual_process st_j) j) /\
  lna_log_lik st =
    fold_left Rplus
      (map (fun j => log_density j (mrow (residual_process st) j)) (seq 1 k)) 0.
Proof.
  intros Hwf0. revert st; induction k as [|k IH]; intros st Hrun.
  - destruct (density_run_zero _ Hrun) as (_ & Hres & Hlik & _).
    rewrite Hres, Hlik. repeat (split; auto). intros; lia.
  - pose proof Hrun as Hrun'.
    destruct (density_run_step _ _ Hrun) as [st_k [Hk Hstep]].
    destruct (IH _ Hk) as (Hwf & Hr & Hc & Hsame & Hstable & Hlik).
    destruct (density_interval_returned _ _ _ Hstep)
      as (update & _ & _ & _ & _ & _ & Hj & Hlen & Hres & Hlik' & _).
    assert (Hother : forall i, i <> S k ->
              mrow (residual_process st) i = mrow (residual_process st_k) i).
    { intros i Hi. rewrite Hres. apply mrow_set_row_other; assumption. }
    split; [rewrite Hres; apply set_row_wf; exact Hwf|].
    split; [rewrite Hres; exact Hr|].
    split; [rewrite Hres, set_row_n_cols; assumption|].
    split; [|split].
    + intros i Hi. rewrite Hother by lia. apply Hsame. lia.
    + intros j st_j Hj' Hrj.
      destruct (Nat.eq_dec j (S k)) as [->|Hne].
      * rewrite Hrj in Hrun'. injection Hrun' as ->. reflexivity.
      * rewrite Hother by exact Hne. apply Hstable; [lia | exact Hrj].
    + rewrite seq_S, map_app.
      change (map ?f [?x]) with [f x].
      rewrite fold_left_Rplus_snoc, Hlik', Hlik. f_equal.
      f_equal. apply map_ext_in. intros j Hin. apply in_seq in Hin.
      rewrite Hother by lia. reflexivity.
Qed.

Lemma lna_density2_returned (out : density) :
  lna_density2 = Returned out ->
  exists st, run (n_times - 1) = Returned st /\
    out = mkDensity (lna_path path) (res_path path) (drift path)
                    (residual_process st) (diffusion path)
                    (data_log_lik path) (lna_log_lik st).
Proof.
  unfold Evaluator.lna_density2. intros H.
  apply bind_returned in H; destruct H as [st [Hrun H]].
  injection H as <-. eauto.
Qed.

(** Row [j] of the returned residual process is the conditional mean
    integrated at iteration [j]. *)
Lemma returned_residual_row (out : density) (j : nat) :
  wf_mat (residual path) ->
  lna_density2 = Returned out ->
  (1 <= j)%nat -> (j < n_times)%nat ->
  exists st st',
    run (j - 1) = Returned st /\ interval j st = Returned st' /\
    mrow (out_residual out) j =
      firstn n_comps
             (skipn n_comps (integrated j (ode_pars st') (lna_state_vec st))).
Proof.
  intros Hwf Hout H1 Hj.
  destruct (lna_density2_returned _ Hout) as [st_end [Hend ->]]. simpl.
  destruct (density_run_prefix _ j _ Hend) as [st' Hrun']; [lia|].
  destruct j as [|k]; [lia|].
  destruct (density_run_step _ _ Hrun') as [st [Hrun Hstep]].
  exists st, st'. replace (S k - 1)%nat with k by lia.
  split; [exact Hrun|]. split; [exact Hstep|].
  destruct (density_run_invariant _ _ Hwf Hend) as (_ & _ & _ & _ & Hstable & _).
  rewrite (Hstable (S k) st') by (auto; lia).
  destruct (density_run_invariant _ _ Hwf Hrun) as (Hwfk & _).
  apply fresh_mean; assumption.
Qed.

(** C6: the returned lna_log_lik is the sum, for j from 1 to n_times-1 in
    that order, of the log-density of row j of the residual path without its
    time column, at mean row j of the returned residual process and
    covariance slice j of the supplied diffusion process; that row j is the
    residual part of the buffer just integrated over interval j; the
    diffusion process comes back as supplied. *)
Theorem lna_density2_log_lik_sum (out : density) :
  wf_mat (residual path) ->
  lna_density2 = Returned out ->
  out_lna_log_lik out =
    fold_left Rplus
      (map (fun j => log_density j (mrow (out_residual out) j))
           (seq 1 (n_times - 1))) 0 /\
  out_diffusion out = diffusion path /\
  forall j, (1 <= j)%nat -> (j < n_times)%nat ->
    exists st st',
      run (j - 1) = Returned st /\ interval j st = Returned st' /\
      mrow (out_residual out) j =
        firstn n_comps
               (skipn n_comps (integrated j (ode_pars st') (lna_state_vec st))).
Proof.
  intros Hwf Hout. split; [|split].
  - destruct (lna_density2_returned _ Hout) as [st_end [Hend ->]]. simpl.
    destruct (density_run_invariant _ _ Hwf Hend) as (_ & _ & _ & _ & _ & Hlik).
    exact Hlik.
  - destruct (lna_density2_returned _ Hout) as [st_end [_ ->]]. reflexivity.
  - intros j H1 Hj. apply returned_residual_row; assumption.
Qed.

(** C7: lna_path, res_path, drift, diffusion and data_log_lik come back as
    supplied; the residual process keeps its shape, its row 0 and its rows
    from n_times on, and its rows 1 to n_times-1 hold the conditional means
    integrated in the loop. *)
Theorem lna_density2_frame (out : density) :
  wf_mat (residual path) ->
  lna_density2 = Returned out ->
  out_lna_path out = lna_path path /\
  out_res_path out = res_path path /\
  out_drift out = drift path /\
  out_diffusion out = diffusion path /\
  out_data_log_lik out = data_log_lik path /\
  n_rows (out_residual out) = n_rows (residual path) /\
  n_cols (out_residual out) = n_cols (residual path) /\
  (forall i, (i = 0 \/ n_times <= i)%nat ->
             mrow (out_residual out) i = mrow (residual path) i) /\
  (forall j, (1 <= j)%nat -> (j < n_times)%nat ->
     exists st st',
       run (j - 1) = Returned st /\ interval j st = Returned st' /\
       mrow (out_residual out) j =
         firstn n_comps
                (skipn n_comps (integrated j (ode_pars st') (lna_state_vec st)))).
Proof.
  intros Hwf Hout.
  destruct (lna_density2_returned _ Hout) as [st_end [Hend Heq]].
  destruct (density_run_invariant _ _ Hwf Hend) as (_ & Hr & Hc & Hsame & _).
  split; [|split; [|split; [|split; [|split; [|split; [|split; [|split]]]]]]];
    try (rewrite Heq; simpl; solve [auto]).
  - intros i Hi. rewrite Heq; simpl. apply Hsame. lia.
  - intros j H1 Hj. apply returned_residual_row; assumption.
Qed.

(** C10: the buffer is all zeros before the first interval and is not
    reset afterwards: after iteration k >= 1 it is the buffer integrated
    over interval k with its residual entries replaced by row k of the
    residual path, so its first n_comps entries are the integrated drift
    values and the next n_comps entries the observed residual; iteration
    k+1 integrates from exactly this buffer. *)
Theorem lna_density2_buffer_carried (k : nat) (st : state) :
  run k = Returned st ->
  (k = 0%nat -> lna_state_vec st = zeros (2 * n_comps)) /\
  ((1 <= k)%nat ->
   exists st_prev,
     run (k - 1) = Returned st_prev /\
     let out := integrated k (ode_pars st) (lna_state_vec st_prev) in
     lna_state_vec st = copy_into (observed_residual k) out n_comps /\
     firstn n_comps (lna_state_vec st) = firstn n_comps out /\
     firstn n_comps (skipn n_comps (lna_state_vec st)) = observed_residual k) /\
  (forall st', interval (k + 1) st = Returned st' ->
     lna_state_vec st' =
       copy_into (observed_residual (k + 1))
                 (integrated (k + 1) (ode_pars st') (lna_state_vec st))
                 n_comps).
Proof.
  intros Hrun. split; [|split].
  - intros ->. apply (density_run_zero _ Hrun).
  - intros Hk. destruct k as [|k]; [lia|].
    destruct (density_run_step _ _ Hrun) as [st_prev [Hprev Hstep]].
    exists st_prev. replace (S k - 1)%nat with k by lia.
    split; [exact Hprev|].
    destruct (density_interval_returned _ _ _ Hstep)
      as (update & _ & _ & _ & Hn & Hlen & _ & _ & _ & _ & Hobs & Hbuf).
    cbv zeta. split; [exact Hbuf|].
    rewrite Hbuf. split.
    + apply copy_into_firstn. rewrite Hobs. lia.
    + rewrite <- Hobs at 1. apply copy_into_segment. rewrite Hobs. lia.
  - intros st' Hstep.
    destruct (density_interval_returned _ _ _ Hstep)
      as (update & _ & _ & _ & _ & _ & _ & _ & _ & _ & _ & Hbuf).
    exact Hbuf.
Qed.

End EvaluatorFacts.
End EvaluatorFacts.

(** ** Sample runs *)

Lemma clamp_neg_of_nonneg (x : R) : 0 <= x -> clamp_neg x = x.
Proof. intros H. unfold clamp_neg. destruct (Rlt_dec x 0); lra. Qed.

Lemma clamp_neg_of_neg (x : R) : x < 0 -> clamp_neg x = 0.
Proof. intros H. unfold clamp_neg. destruct (Rlt_dec x 0); lra. Qed.

Module SampleRuns.
Import Samples.

Lemma exp_2_above : 1 < exp 2.
Proof. rewrite <- exp_0 at 1. apply exp_increasing. lra. Qed.

Lemma exp_minus_1_below : exp (-1) < 1.
Proof. rewrite <- exp_0. apply exp_increasing. lra. Qed.

(** A diffusion of 1, a draw of 1 and a drift of 1 and then of -2: the first
    log-scale increment is 1 + 1 and the first increment exp(2) - 1; the
    second log-scale increment is -2 + 1, so exp(-1) - 1 is negative and is
    set to 0 before it is added, and the cumulative incidence stays at
    exp(2) - 1.  Adding first and clamping the sum afterwards would have
    given exp(2) + exp(-1) - 2. *)
Example clamp_then_accumulate :
  exists out,
    Proposer.propose_lna ebbing chol_1x1 sample_randn sample_times
      sample_lna_pars sample_init_start sample_flags sample_stoich
      = Returned out /\
    mrow (Proposer.out_lna_path out) 0 = [0; 0] /\
    mrow (Proposer.out_lna_path out) 1 = [1; exp 2 - 1] /\
    mrow (Proposer.out_lna_path out) 2 = [2; exp 2 - 1] /\
    exp 2 - 1 <> clamp_neg (exp 2 - 1 + (exp (-1) - 1)).
Proof.
  pose proof exp_2_above as H1. pose proof exp_minus_1_below as H2.
  pose proof (exp_pos (-1)) as H3.
  assert (E1 : clamp_neg (exp (1 - 3 * 0 + (sqrt 1 * sample_randn 0 0 + 0)) - 1)
               = exp 2 - 1).
  { rewrite sqrt_1.
    replace (1 - 3 * 0 + (1 * sample_randn 0 0 + 0)) with 2
      by (unfold sample_randn; lra).
    apply clamp_neg_of_nonneg. lra. }
  assert (E2 : clamp_neg (exp (1 - 3 * 1 + (sqrt 1 * sample_randn 0 1 + 0)) - 1)
               = 0).
  { rewrite sqrt_1.
    replace (1 - 3 * 1 + (1 * sample_randn 0 1 + 0)) with (-1)
      by (unfold sample_randn; lra).
    apply clamp_neg_of_neg. lra. }
  eexists. split.
  - unfold Proposer.propose_lna, Proposer.run, Proposer.initialise; simpl.
    repeat (unfold Proposer.interval at 1; cbn;
            destruct (Rlt_dec 0 1) as [_|Hn]; [|exfalso; lra]; cbn).
    reflexivity.
  - cbn. rewrite E1, E2.
    split; [reflexivity|].
    replace (0 + (exp 2 - 1) + 0) with (exp 2 - 1) by lra.
    replace (0 + (exp 2 - 1)) with (exp 2 - 1) by lra.
    split; [reflexivity|]. split; [reflexivity|].
    unfold clamp_neg.
    destruct (Rlt_dec (exp 2 - 1 + (exp (-1) - 1)) 0); lra.
Qed.

(** The evaluator on the sample bundle with an integrator that adds 1 to
    each entry of the buffer.  The mean of row 1 is 0 + 1; the mean of row 2
    is 3 + 1, the observed residual of row 1 plus 1: the second integration
    starts from the observed value, not from the mean 1 it had predicted and
    not from 0. *)
Example density_on_sample :
  exists out,
    Evaluator.lna_density2 shift_one sample_dmvtn sample_path sample_times
      sample_lna_pars sample_flags sample_flow = Returned out /\
    mrow (Evaluator.out_residual out) 0 = [0] /\
    mrow (Evaluator.out_residual out) 1 = [0 + 1] /\
    mrow (Evaluator.out_residual out) 2 = [3 + 1] /\
    Evaluator.out_lna_log_lik out = 2 /\
    Evaluator.out_data_log_lik out = -5.
Proof.
  eexists. split; [reflexivity|]. simpl.
  repeat (split; [reflexivity|]). split; [lra | reflexivity].
Qed.

End SampleRuns.

(** ** The theorems at the sample inputs *)

Lemma chol_1x1_returned (A L : mat) :
  Samples.chol_1x1 A = Some L ->
  exists x, n_rows A = 1%nat /\ cols A = [[x]] /\ 0 < x /\
            L = mkMat 1 [[sqrt x]].
Proof.
  unfold Samples.chol_1x1. destruct A as [n cs]; simpl.
  destruct n as [|[|n]]; try discriminate.
  destruct cs as [|[|x [|y c]] [|c' cs]]; try discriminate.
  destruct (Rlt_dec 0 x) as [Hx|Hx]; [|discriminate].
  intros H; injection H as <-. eauto.
Qed.

Lemma chol_1x1_factorises : chol_factorises Samples.chol_1x1.
Proof.
  intros A L H.
  destruct (chol_1x1_returned A L H) as (x & Hn & Hc & Hx & ->).
  split; [symmetry; exact Hn|].
  intros i k Hi Hk. rewrite Hn in Hi, Hk.
  assert (i = 0)%nat by lia. assert (k = 0)%nat by lia. subst i k.
  unfold mrow, elem, mcol, dot. rewrite Hc. simpl.
  rewrite sqrt_sqrt by lra. lra.
Qed.

Lemma chol_1x1_positive_definite : chol_positive_definite Samples.chol_1x1.
Proof.
  split; [exact chol_1x1_factorises|].
  intros A L H i Hi.
  destruct (chol_1x1_returned A L H) as (x & Hn & Hc & Hx & ->).
  rewrite Hn in Hi. assert (i = 0)%nat by lia. subst i.
  unfold elem, mcol. simpl. apply sqrt_lt_R0. exact Hx.
Qed.

Module ProposerWitnesses.
Import Proposer Samples ProposerFacts.

Local Abbreviation integrate_stem_lna := unit_noise.
Local Abbreviation chol_lower := chol_1x1.
Local Abbreviation randn := sample_randn.
Local Abbreviation lna_times := sample_times.
Local Abbreviation lna_pars := sample_lna_pars.
Local Abbreviation init_start := sample_init_start.
Local Abbreviation param_update_inds := sample_flags.
Local Abbreviation stoich_matrix := sample_stoich.

Local Abbreviation n_events := (n_events stoich_matrix).
Local Abbreviation n_comps := (n_comps stoich_matrix).
Local Abbreviation n_times := (n_times lna_times).
Local Abbreviation draws := (draws randn lna_times stoich_matrix).
Local Abbreviation integrated_drift :=
  (integrated_drift integrate_stem_lna lna_times stoich_matrix).
Local Abbreviation integrated_diffusion :=
  (integrated_diffusion integrate_stem_lna lna_times stoich_matrix).
Local Abbreviation interval :=
  (interval integrate_stem_lna chol_lower randn lna_times lna_pars init_start
            param_update_inds stoich_matrix).
Local Abbreviation run :=
  (run integrate_stem_lna chol_lower randn lna_times lna_pars init_start
       param_update_inds stoich_matrix).
Local Abbreviation propose_lna :=
  (propose_lna integrate_stem_lna chol_lower randn lna_times lna_pars
               init_start param_update_inds stoich_matrix).
Local Abbreviation row0_volumes :=
  (firstn n_comps (skipn init_start (mrow lna_pars 0))).

Ltac run_sample :=
  unfold Proposer.propose_lna, Proposer.run, Proposer.initialise; simpl;
  repeat (unfold Proposer.interval at 1; cbn;
          destruct (Rlt_dec 0 1) as [_|Hn]; [|exfalso; lra]; cbn).

Lemma sample_run_returns : exists st, run 2 = Returned st.
Proof. eexists. run_sample. reflexivity. Qed.

Lemma sample_proposal_returns : exists out, propose_lna = Returned out.
Proof. eexists. run_sample. reflexivity. Qed.

Lemma propose_lna_path_monotone_witness :
  exists out,
    propose_lna = Returned out /\ (0 < n_events)%nat /\ (1 + 1 < n_times)%nat /\
    elem (out_lna_path out) 1 (0 + 1) <= elem (out_lna_path out) (1 + 1) (0 + 1).
Proof.
  destruct sample_proposal_returns as [out Hout].
  exists out. split; [exact Hout|].
  split; [vm_compute; lia|]. split; [vm_compute; lia|].
  apply (propose_lna_path_monotone
           integrate_stem_lna chol_lower randn lna_times lna_pars init_start
           param_update_inds stoich_matrix out 0 1 Hout); vm_compute; lia.
Defined.



End ProposerWitnesses.

Module QuietWitness.
Import Proposer Samples ProposerFacts.

Local Abbreviation integrate_stem_lna := unit_noise.
Local Abbreviation chol_lower := chol_1x1.
Local Abbreviation randn := sample_randn.
Local Abbreviation lna_times := sample_times.
Local Abbreviation lna_pars := sample_lna_pars.
Local Abbreviation init_start := sample_init_start.
Local Abbreviation param_update_inds := quiet_flags.
Local Abbreviation stoich_matrix := sample_stoich.

Local Abbreviation n_comps := (n_comps stoich_matrix).
Local Abbreviation interval :=
  (interval integrate_stem_lna chol_lower randn lna_times lna_pars init_start
            param_update_inds stoich_matrix).
Local Abbreviation run :=
  (run integrate_stem_lna chol_lower randn lna_times lna_pars init_start
       param_update_inds stoich_matrix).
Local Abbreviation row0_volumes :=
  (firstn n_comps (skipn init_start (mrow lna_pars 0))).

Lemma quiet_run_returns :
  exists st st', run 1 = Returned st /\ interval 1 st = Returned st'.
Proof.
  assert (H : exists st', run 2 = Returned st').
  { eexists. ProposerWitnesses.run_sample. reflexivity. }
  destruct H as [st' H].
  destruct (run_step _ _ _ _ _ _ _ _ _ _ H) as [st [Hrun Hstep]]. eauto.
Qed.

Lemma quiet_flags_false :
  forall i, (1 <= i)%nat -> nth i param_update_inds false = false.
Proof. intros [|[|[|[|i]]]] H; try reflexivity. lia. Qed.

Lemma propose_lna_parameters_kept_witness :
  (forall i, (1 <= i)%nat -> nth i param_update_inds false = false) /\
  exists st st',
    run 1 = Returned st /\ interval 1 st = Returned st' /\
    current_params st' =
      copy_into (init_volumes st') (current_params st) init_start /\
    init_volumes st' =
      map clamp_neg (vadd row0_volumes (mat_vec stoich_matrix (c_incid st'))) /\
    firstn n_comps (skipn init_start (current_params st')) = init_volumes st' /\
    pushed st' = pushed st ++ [current_params st'] /\
    length (pushed st') = (1 + 2)%nat /\
    length (current_params st') = n_cols lna_pars /\
    forall i, (i < init_start \/ init_start + n_comps <= i)%nat ->
              nth i (current_params st') 0 = nth i (mrow lna_pars 0) 0.
Proof.
  split; [exact quiet_flags_false|].
  destruct quiet_run_returns as [st [st' [Hrun Hstep]]].
  exists st, st'. split; [exact Hrun|]. split; [exact Hstep|].
  apply (propose_lna_parameters_kept
           integrate_stem_lna chol_lower randn lna_times lna_pars init_start
           param_update_inds stoich_matrix 1 st st'
           quiet_flags_false Hrun Hstep).
Defined.

End QuietWitness.

Module EbbingWitness.
Import Proposer Samples ProposerFacts.

Local Abbreviation integrate_stem_lna := ebbing.
Local Abbreviation chol_lower := chol_1x1.
Local Abbreviation randn := sample_randn.
Local Abbreviation lna_times := sample_times.
Local Abbreviation lna_pars := sample_lna_pars.
Local Abbreviation init_start := sample_init_start.
Local Abbreviation param_update_inds := sample_flags.
Local Abbreviation stoich_matrix := sample_stoich.

Local Abbreviation n_events := (n_events stoich_matrix).
Local Abbreviation n_times := (n_times lna_times).
Local Abbreviation integrated_diffusion :=
  (integrated_diffusion integrate_stem_lna lna_times stoich_matrix).
Local Abbreviation interval :=
  (interval integrate_stem_lna chol_lower randn lna_times lna_pars init_start
            param_update_inds stoich_matrix).
Local Abbreviation run :=
  (run integrate_stem_lna chol_lower randn lna_times lna_pars init_start
       param_update_inds stoich_matrix).
Local Abbreviation propose_lna :=
  (propose_lna integrate_stem_lna chol_lower randn lna_times lna_pars
               init_start param_update_inds stoich_matrix).

Lemma ebbing_proposal_returns : exists out, propose_lna = Returned out.
Proof. eexists. ProposerWitnesses.run_sample. reflexivity. Qed.

(** Over the second interval the drift is -2 and the factor of the
    diffusion matrix is 1, so with a draw of 1 the log-scale increment is
    -1. *)
Lemma ebbing_second_log (st st' : state) (L : mat) :
  chol_lower (symmatu (integrated_diffusion 1 st)) = Some L ->
  lna_state_vec st' =
    integrate_stem_lna (ode_pars st) (repeat 0 (n_events + n_events * n_events))
                       (nth 1 lna_times 0) (nth (1 + 1) lna_times 0) (1 / 1000) ->
  nth 0 (log_lna st') 0 =
    nth 0 (lna_state_vec st') 0 +
    fold_right Rplus 0 (map (fun k => elem L 0 k * randn k 1%nat)
                            (seq 0 n_events)) ->
  nth 0 (log_lna st') 0 = -1.
Proof.
  intros HL Hbuf Hlog.
  destruct (chol_1x1_returned _ _ HL) as (x & _ & Hc & _ & ->).
  cbn in Hc. injection Hc as <-.
  rewrite Hlog, Hbuf. cbn. rewrite sqrt_1. unfold sample_randn. lra.
Qed.

Lemma propose_lna_interval_recurrence_witness :
  exists out,
    propose_lna = Returned out /\ (1 < n_times - 1)%nat /\
    exists st st' L,
      run 1 = Returned st /\ interval 1 st = Returned st' /\
      chol_lower (lna_diffusion st') = Some L /\
      (forall e, (e < n_events)%nat ->
         nth e (log_lna st') 0 =
           nth e (lna_state_vec st') 0 +
           fold_right Rplus 0
             (map (fun k => elem L e k * randn k 1%nat) (seq 0 n_events)) /\
         nth e (nat_lna st') 0 = Rmax 0 (exp (nth e (log_lna st') 0) - 1) /\
         elem (out_lna_path out) 1 (e + 1) = nth e (c_incid st) 0 /\
         elem (out_lna_path out) (1 + 1) (e + 1) =
           elem (out_lna_path out) 1 (e + 1) + nth e (nat_lna st') 0) /\
      nth 0 (log_lna st') 0 = -1 /\
      exp (nth 0 (log_lna st') 0) - 1 < 0 /\
      nth 0 (nat_lna st') 0 = 0 /\
      elem (out_lna_path out) (1 + 1) (0 + 1) = elem (out_lna_path out) 1 (0 + 1).
Proof.
  destruct ebbing_proposal_returns as [out Hout].
  exists out. split; [exact Hout|].
  assert (Hj : (1 < n_times - 1)%nat) by (vm_compute; lia).
  split; [exact Hj|].
  destruct (propose_lna_interval_recurrence
              integrate_stem_lna chol_lower randn lna_times lna_pars init_start
              param_update_inds stoich_matrix out 1 Hout Hj)
    as (st & st' & L & Hrun & Hstep & HL & _ & _ & _ & _ & _ & _ & _ & _ & _
        & Hbuf & HL' & _ & Hentries).
  exists st, st', L.
  split; [exact Hrun|]. split; [exact Hstep|]. split; [exact HL'|].
  split; [exact Hentries|].
  destruct (Hentries 0%nat ltac:(vm_compute; lia)) as (Hlog & Hnat & _ & Hpath).
  pose proof (ebbing_second_log st st' L HL Hbuf Hlog) as Hm.
  assert (Hneg : exp (nth 0 (log_lna st') 0) - 1 < 0).
  { rewrite Hm. pose proof SampleRuns.exp_minus_1_below. lra. }
  assert (Hzero : nth 0 (nat_lna st') 0 = 0).
  { rewrite Hnat. apply Rmax_left. lra. }
  split; [exact Hm|]. split; [exact Hneg|]. split; [exact Hzero|].
  rewrite Hpath, Hzero. lra.
Defined.

End EbbingWitness.

Module ZeroDiffusion.
Import Proposer Samples ProposerFacts.

Local Abbreviation integrate_stem_lna := steady.
Local Abbreviation chol_lower := chol_1x1.
Local Abbreviation randn := sample_randn.
Local Abbreviation lna_times := sample_times.
Local Abbreviation lna_pars := sample_lna_pars.
Local Abbreviation init_start := sample_init_start.
Local Abbreviation param_update_inds := sample_flags.
Local Abbreviation stoich_matrix := sample_stoich.

Local Abbreviation n_events := (n_events stoich_matrix).
Local Abbreviation n_times := (n_times lna_times).
Local Abbreviation integrated_drift :=
  (integrated_drift integrate_stem_lna lna_times stoich_matrix).
Local Abbreviation integrated_diffusion :=
  (integrated_diffusion integrate_stem_lna lna_times stoich_matrix).
Local Abbreviation interval :=
  (interval integrate_stem_lna chol_lower randn lna_times lna_pars init_start
            param_update_inds stoich_matrix).
Local Abbreviation run :=
  (run integrate_stem_lna chol_lower randn lna_times lna_pars init_start
       param_update_inds stoich_matrix).
Local Abbreviation propose_lna :=
  (propose_lna integrate_stem_lna chol_lower randn lna_times lna_pars
               init_start param_update_inds stoich_matrix).

Lemma steady_run_starts : exists st, run 0 = Returned st.
Proof. eexists. reflexivity. Qed.

Lemma steady_drift_zero (st : state) :
  Forall (fun x => x = 0) (integrated_drift 0 st).
Proof. repeat constructor. Qed.

Lemma steady_diffusion_zero (st : state) (i k : nat) :
  elem (integrated_diffusion 0 st) i k = 0.
Proof. destruct i as [|[|i]], k as [|[|k]]; reflexivity. Qed.

Lemma steady_interval_raises (st : state) :
  interval 0 st = Raised NumericalFailure.
Proof.
  unfold Proposer.interval, chol_1x1; cbn.
  destruct (Rlt_dec 0 0) as [H|_]; [exfalso; lra | reflexivity].
Qed.

(** With an integrator that leaves the zero buffer as it is, the first
    interval has a zero drift and a zero diffusion matrix; the factorisation
    refuses the matrix, so the interval has no increment at all, zero or
    other, and the call returns no path. *)
Lemma zero_interval_has_no_increment :
  exists st,
    run 0 = Returned st /\
    Forall (fun x => x = 0) (integrated_drift 0 st) /\
    (forall i k, elem (integrated_diffusion 0 st) i k = 0) /\
    interval 0 st = Raised NumericalFailure /\
    ~ (exists st', interval 0 st = Returned st' /\
                   Forall (fun x => x = 0) (nat_lna st')) /\
    propose_lna = Raised NumericalFailure.
Proof.
  destruct steady_run_starts as [st Hrun].
  exists st. split; [exact Hrun|].
  split; [exact (steady_drift_zero st)|].
  split; [exact (steady_diffusion_zero st)|].
  split; [exact (steady_interval_raises st)|].
  split.
  - intros [st' [H _]]. rewrite steady_interval_raises in H. discriminate.
  - unfold Proposer.propose_lna.
    rewrite (run_raised _ _ _ _ _ _ _ _ 0 (n_times - 1) st NumericalFailure
               Hrun (steady_interval_raises st)) by (vm_compute; lia).
    reflexivity.
Qed.

Lemma propose_lna_zero_diffusion_refused_witness :
  chol_positive_definite chol_lower /\
  exists st,
    run 0 = Returned st /\ (0 < n_times - 1)%nat /\ (1 <= n_events)%nat /\
    Forall (fun x => x = 0) (integrated_drift 0 st) /\
    (forall i k, elem (integrated_diffusion 0 st) i k = 0) /\
    chol_lower (symmatu (integrated_diffusion 0 st)) = None /\
    interval 0 st = Raised NumericalFailure /\
    propose_lna = Raised NumericalFailure /\
    (forall out, propose_lna <> Returned out) /\
    (forall m s s' e, interval m s = Returned s' -> 0 <= nth e (nat_lna s') 0).
Proof.
  split; [exact chol_1x1_positive_definite|].
  destruct steady_run_starts as [st Hrun].
  exists st. split; [exact Hrun|].
  assert (Hj : (0 < n_times - 1)%nat) by (vm_compute; lia).
  assert (He : (1 <= n_events)%nat) by (vm_compute; lia).
  split; [exact Hj|]. split; [exact He|].
  split; [exact (steady_drift_zero st)|].
  split; [exact (steady_diffusion_zero st)|].
  apply (propose_lna_zero_diffusion_refused
           integrate_stem_lna chol_lower randn lna_times lna_pars init_start
           param_update_inds stoich_matrix 0 st
           chol_1x1_positive_definite Hrun Hj He
           (steady_drift_zero st) (steady_diffusion_zero st)).
Defined.

End ZeroDiffusion.

Module FailureWitness.
Import Proposer Samples ProposerFacts.

Local Abbreviation integrate_stem_lna := bad_noise.
Local Abbreviation chol_lower := chol_1x1.
Local Abbreviation randn := sample_randn.
Local Abbreviation lna_times := sample_times.
Local Abbreviation lna_pars := sample_lna_pars.
Local Abbreviation init_start := sample_init_start.
Local Abbreviation param_update_inds := sample_flags.
Local Abbreviation stoich_matrix := sample_stoich.

Local Abbreviation n_times := (n_times lna_times).
Local Abbreviation integrated_diffusion :=
  (integrated_diffusion integrate_stem_lna lna_times stoich_matrix).
Local Abbreviation run :=
  (run integrate_stem_lna chol_lower randn lna_times lna_pars init_start
       param_update_inds stoich_matrix).
Local Abbreviation propose_lna :=
  (propose_lna integrate_stem_lna chol_lower randn lna_times lna_pars
               init_start param_update_inds stoich_matrix).

Lemma bad_run_starts : exists st, run 0 = Returned st.
Proof. eexists. reflexivity. Qed.

Lemma bad_noise_refused (st : state) :
  chol_lower (symmatu (integrated_diffusion 0 st)) = None.
Proof.
  unfold chol_1x1; cbn.
  destruct (Rlt_dec 0 (-1)) as [H|_]; [exfalso; lra | reflexivity].
Qed.

Lemma propose_lna_chol_failure_witness :
  exists st,
    run 0 = Returned st /\ (0 < n_times - 1)%nat /\
    chol_lower (symmatu (integrated_diffusion 0 st)) = None /\
    propose_lna = Raised NumericalFailure /\
    forall out, propose_lna <> Returned out.
Proof.
  destruct bad_run_starts as [st Hrun].
  exists st. split; [exact Hrun|].
  split; [vm_compute; lia|]. split; [exact (bad_noise_refused st)|].
  apply (propose_lna_chol_failure
           integrate_stem_lna chol_lower randn lna_times lna_pars init_start
           param_update_inds stoich_matrix 0 st Hrun).
  - vm_compute; lia.
  - exact (bad_noise_refused st).
Defined.

End FailureWitness.

Module EvaluatorWitnesses.
Import Evaluator Samples EvaluatorFacts.

Local Abbreviation integrate_stem_lna := shift_one.
Local Abbreviation dmvtn := sample_dmvtn.
Local Abbreviation path := sample_path.
Local Abbreviation lna_times := sample_times.
Local Abbreviation lna_pars := sample_lna_pars.
Local Abbreviation param_update_inds := sample_flags.
Local Abbreviation flow_matrix := sample_flow.

Local Abbreviation n_comps := (n_comps flow_matrix).
Local Abbreviation n_times := (n_times lna_times).
Local Abbreviation observed_residual := (observed_residual path flow_matrix).
Local Abbreviation integrated := (integrated integrate_stem_lna lna_times).
Local Abbreviation interval :=
  (interval integrate_stem_lna dmvtn path lna_times lna_pars
            param_update_inds flow_matrix).
Local Abbreviation run :=
  (run integrate_stem_lna dmvtn path lna_times lna_pars
       param_update_inds flow_matrix).
Local Abbreviation lna_density2 :=
  (lna_density2 integrate_stem_lna dmvtn path lna_times lna_pars
                param_update_inds flow_matrix).
Local Abbreviation log_density j mean :=
  (nth 0 (dmvtn (observed_residual j) mean
                (nth j (diffusion path) (mkMat 0 [])) true) 0).

Lemma sample_residual_wf : wf_mat (residual path).
Proof. repeat constructor. Qed.

Lemma sample_density_returns : exists out, lna_density2 = Returned out.
Proof. eexists. reflexivity. Qed.

Lemma sample_density_run : exists st, run 1 = Returned st.
Proof. eexists. reflexivity. Qed.

Lemma lna_density2_log_lik_sum_witness :
  wf_mat (residual path) /\
  exists out,
    lna_density2 = Returned out /\
    out_lna_log_lik out =
      fold_left Rplus
        (map (fun j => log_density j (mrow (out_residual out) j))
             (seq 1 (n_times - 1))) 0 /\
    out_diffusion out = diffusion path /\
    forall j, (1 <= j)%nat -> (j < n_times)%nat ->
      exists st st',
        run (j - 1) = Returned st /\ interval j st = Returned st' /\
        mrow (out_residual out) j =
          firstn n_comps
                 (skipn n_comps (integrated j (ode_pars st') (lna_state_vec st))).
Proof.
  split; [exact sample_residual_wf|].
  destruct sample_density_returns as [out Hout].
  exists out. split; [exact Hout|].
  apply (lna_density2_log_lik_sum
           integrate_stem_lna dmvtn path lna_times lna_pars param_update_inds
           flow_matrix out sample_residual_wf Hout).
Defined.

Lemma lna_density2_frame_witness :
  wf_mat (residual path) /\
  exists out,
    lna_density2 = Returned out /\
    out_lna_path out = lna_path path /\
    out_res_path out = res_path path /\
    out_drift out = drift path /\
    out_diffusion out = diffusion path /\
    out_data_log_lik out = data_log_lik path /\
    n_rows (out_residual out) = n_rows (residual path) /\
    n_cols (out_residual out) = n_cols (residual path) /\
    (forall i, (i = 0 \/ n_times <= i)%nat ->
               mrow (out_residual out) i = mrow (residual path) i) /\
    (forall j, (1 <= j)%nat -> (j < n_times)%nat ->
       exists st st',
         run (j - 1) = Returned st /\ interval j st = Returned st' /\
         mrow (out_residual out) j =
           firstn n_comps
                  (skipn n_comps (integrated j (ode_pars st') (lna_state_vec st)))).
Proof.
  split; [exact sample_residual_wf|].
  destruct sample_density_returns as [out Hout].
  exists out. split; [exact Hout|].
  apply (lna_density2_frame
           integrate_stem_lna dmvtn path lna_times lna_pars param_update_inds
           flow_matrix out sample_residual_wf Hout).
Defined.

Lemma lna_density2_buffer_carried_witness :
  exists st,
    run 1 = Returned st /\
    (1%nat = 0%nat -> lna_state_vec st = zeros (2 * n_comps)) /\
    ((1 <= 1)%nat ->
     exists st_prev,
       run (1 - 1) = Returned st_prev /\
       let out := integrated 1 (ode_pars st) (lna_state_vec st_prev) in
       lna_state_vec st = copy_into (observed_residual 1) out n_comps /\
       firstn n_comps (lna_state_vec st) = firstn n_comps out /\
       firstn n_comps (skipn n_comps (lna_state_vec st)) = observed_residual 1) /\
    (forall st', interval (1 + 1) st = Returned st' ->
       lna_state_vec st' =
         copy_into (observed_residual (1 + 1))
                   (integrated (1 + 1) (ode_pars st') (lna_state_vec st))
                   n_comps).
Proof.
  destruct sample_density_run as [st Hrun].
  exists st. split; [exact Hrun|].
  apply (lna_density2_buffer_carried
           integrate_stem_lna dmvtn path lna_times lna_pars param_update_inds
           flow_matrix 1 st Hrun).
Defined.

End EvaluatorWitnesses.

(** * Further properties *)

(** ** pars2lnapars: failure, composition, well-formedness *)

Module ParsWriterMore.
Import ParsWriter Samples.

Lemma cols_in_bounds_spec (M : mat) (n : nat) :
  cols_in_bounds M 0 (Z.of_nat n - 1) = true <->
  (1 <= n)%nat /\ (n <= n_cols M)%nat.
Proof.
  unfold cols_in_bounds. rewrite !andb_true_iff, !Z.leb_le, Z.ltb_lt. lia.
Qed.

(** X1: the call leaves through the bounds check exactly when the parameter
    vector is empty or longer than the matrix is wide. *)
Theorem pars2lnapars_raises_iff (lnapars : mat) (parameters : vec) :
  pars2lnapars lnapars parameters = Raised IndexOutOfBounds <->
  (length parameters = 0 \/ n_cols lnapars < length parameters)%nat.
Proof.
  unfold pars2lnapars.
  destruct (cols_in_bounds lnapars 0 (Z.of_nat (length parameters) - 1))
    eqn:Hb; simpl.
  - apply cols_in_bounds_spec in Hb. split; [discriminate | lia].
  - split; [intros _ | reflexivity].
    destruct (Nat.eq_dec (length parameters) 0) as [H0|H0]; [auto|].
    destruct (Nat.le_gt_cases (length parameters) (n_cols lnapars)) as [H|H];
      [|auto].
    assert (Ht : cols_in_bounds lnapars 0 (Z.of_nat (length parameters) - 1)
                 = true) by (apply cols_in_bounds_spec; lia).
    congruence.
Qed.

Lemma pars2lnapars_raises_iff_witness :
  pars2lnapars sample_pars [7; 8; 9; 10] = Raised IndexOutOfBounds.
Proof.
  apply (proj2 (pars2lnapars_raises_iff sample_pars [7; 8; 9; 10])).
  right. vm_compute. lia.
Defined.

Lemma pars2lnapars_returns (lnapars : mat) (parameters : vec) :
  (1 <= length parameters)%nat -> (length parameters <= n_cols lnapars)%nat ->
  pars2lnapars lnapars parameters
  = Returned (tt, each_row_assign lnapars parameters).
Proof.
  intros H1 H2. unfold pars2lnapars.
  replace (cols_in_bounds lnapars 0 (Z.of_nat (length parameters) - 1))
    with true; [reflexivity|].
  symmetry. apply cols_in_bounds_spec. lia.
Qed.

(** X2: writing [p] and then a vector [q] with at least as many entries leaves
    the matrix that writing [q] alone leaves; in particular writing the same
    vector twice changes nothing the second time. *)
Theorem pars2lnapars_later_write_wins (lnapars : mat) (p q : vec) :
  (1 <= length p)%nat -> (length p <= length q)%nat ->
  (length q <= n_cols lnapars)%nat ->
  bind (pars2lnapars lnapars p) (fun r => pars2lnapars (snd r) q)
  = pars2lnapars lnapars q.
Proof.
  intros Hp Hpq Hq.
  rewrite (pars2lnapars_returns lnapars p) by lia. simpl.
  assert (Hc : n_cols (each_row_assign lnapars p) = n_cols lnapars)
    by (apply ParsWriterFacts.each_row_assign_cols; lia).
  rewrite !pars2lnapars_returns by lia.
  do 2 f_equal. unfold each_row_assign; simpl. f_equal. f_equal.
  rewrite skipn_app, length_map.
  rewrite (skipn_all2 (map _ p)) by (rewrite length_map; lia).
  simpl. rewrite skipn_skipn. f_equal. lia.
Qed.

Lemma pars2lnapars_later_write_wins_witness :
  bind (pars2lnapars sample_pars [7]) (fun r => pars2lnapars (snd r) [8; 9])
  = pars2lnapars sample_pars [8; 9].
Proof.
  apply (pars2lnapars_later_write_wins sample_pars [7] [8; 9]);
    vm_compute; lia.
Defined.

(** A matrix whose columns all have [n_rows] entries keeps that form. *)
Lemma pars2lnapars_keeps_wf (lnapars M' : mat) (parameters : vec) :
  wf_mat lnapars ->
  pars2lnapars lnapars parameters = Returned (tt, M') ->
  wf_mat M'.
Proof.
  intros Hwf H. unfold pars2lnapars in H.
  apply bind_returned in H. destruct H as [u [_ H]].
  injection H as <-. unfold wf_mat, each_row_assign; simpl.
  apply Forall_app. split.
  - apply Forall_forall. intros c Hc. apply in_map_iff in Hc.
    destruct Hc as [x [<- _]]. apply repeat_length.
  - unfold wf_mat in Hwf. rewrite Forall_forall in *. intros c Hc.
    apply Hwf. rewrite <- (firstn_skipn (length parameters) (cols lnapars)).
    apply in_or_app. right. exact Hc.
Qed.

End ParsWriterMore.

(** ** propose_lna: shape of the result, signs, symmetry, parameters *)

Lemma elem_symmatu_outside (X : mat) (i k : nat) :
  (n_rows X <= i \/ n_rows X <= k)%nat -> elem (symmatu X) i k = 0.
Proof.
  intros H. unfold elem, mcol, symmatu. cbv zeta. simpl cols.
  destruct (Nat.lt_ge_cases k (n_rows X)) as [Hk|Hk].
  - rewrite (nth_map_seq vec _ _ _ [] Hk).
    apply nth_overflow. rewrite length_map, length_seq. lia.
  - rewrite (nth_overflow (map _ _)) by (rewrite length_map, length_seq; lia).
    destruct i; reflexivity.
Qed.

Lemma symmatu_symmetric (X : mat) (i k : nat) :
  elem (symmatu X) i k = elem (symmatu X) k i.
Proof.
  destruct (Nat.lt_ge_cases i (n_rows X)) as [Hi|Hi];
    [|rewrite !elem_symmatu_outside by auto; reflexivity].
  destruct (Nat.lt_ge_cases k (n_rows X)) as [Hk|Hk];
    [|rewrite !elem_symmatu_outside by auto; reflexivity].
  rewrite !elem_symmatu by assumption.
  destruct (Nat.leb_spec i k), (Nat.leb_spec k i); try reflexivity; try lia.
  assert (i = k) by lia. subst. reflexivity.
Qed.

Lemma symmatu_wf (X : mat) : wf_mat (symmatu X).
Proof.
  unfold wf_mat, symmatu. cbv zeta. simpl.
  apply Forall_forall. intros c Hc. apply in_map_iff in Hc.
  destruct Hc as [j [<- _]]. now rewrite length_map, length_seq.
Qed.

Lemma exp_minus_1_nonpos (x : R) : x <= 0 -> exp x - 1 <= 0.
Proof.
  intros [H | ->].
  - pose proof (exp_increasing x 0 H) as E. rewrite exp_0 in E. lra.
  - rewrite exp_0. lra.
Qed.

Lemma exp_minus_1_pos (x : R) : 0 < x -> 0 < exp x - 1.
Proof.
  intros H. pose proof (exp_increasing 0 x H) as E. rewrite exp_0 in E. lra.
Qed.

Lemma copy_into_agree (v cp cp' : vec) (pos : nat) :
  length cp = length cp' ->
  (forall i, (i < pos \/ pos + length v <= i)%nat -> nth i cp 0 = nth i cp' 0) ->
  copy_into v cp pos = copy_into v cp' pos.
Proof.
  intros Hlen Hout. unfold copy_into. f_equal; [|f_equal].
  - apply nth_ext with (d := 0) (d' := 0).
    + rewrite !length_firstn. lia.
    + intros i Hi. rewrite length_firstn in Hi.
      rewrite !nth_firstn.
      destruct (Nat.ltb_spec i pos); [apply Hout; lia | reflexivity].
  - apply nth_ext with (d := 0) (d' := 0).
    + rewrite !length_skipn. lia.
    + intros i Hi. rewrite !nth_skipn_shift. apply Hout. lia.
Qed.

Lemma flag_at_returned (v : list bool) (i : nat) (b : bool) :
  flag_at v i = Returned b -> (i < length v)%nat /\ b = nth i v false.
Proof.
  unfold flag_at. intros H.
  apply bind_returned in H. destruct H as [u [Hc H]].
  apply check_returned, Nat.ltb_lt in Hc. injection H as <-. auto.
Qed.

Lemma rcpp_row_returned (M : mat) (i : nat) (r : vec) :
  rcpp_row M i = Returned r -> (i < n_rows M)%nat /\ r = mrow M i.
Proof.
  unfold rcpp_row. intros H.
  apply bind_returned in H. destruct H as [u [Hc H]].
  apply check_returned, Nat.ltb_lt in Hc. injection H as <-. auto.
Qed.

Lemma rcpp_row_no_rows (M : mat) (i : nat) :
  (n_rows M <= i)%nat -> rcpp_row M i = Raised IndexOutOfBounds.
Proof.
  intros H. unfold rcpp_row.
  replace (i <? n_rows M)%nat with false; [reflexivity|].
  symmetry. apply Nat.ltb_ge. exact H.
Qed.

Module ProposerMore.
Import Proposer Tracking.

Section ProposerMore.

Variable integrate_stem_lna : vec -> vec -> R -> R -> R -> vec.
Variable chol_lower : mat -> option mat.
Variable randn : nat -> nat -> R.
Variable lna_times : vec.
Variable lna_pars : mat.
Variable init_start : nat.
Variable param_update_inds : list bool.
Variable stoich_matrix : mat.

Local Abbreviation n_events := (n_events stoich_matrix).
Local Abbreviation n_comps := (n_comps stoich_matrix).
Local Abbreviation n_times := (n_times lna_times).
Local Abbreviation draws := (draws randn lna_times stoich_matrix).
Local Abbreviation initialise :=
  (initialise lna_times lna_pars init_start stoich_matrix).
Local Abbreviation integrated := (integrated integrate_stem_lna lna_times stoich_matrix).
Local Abbreviation interval :=
  (interval integrate_stem_lna chol_lower randn lna_times lna_pars init_start
            param_update_inds stoich_matrix).
Local Abbreviation run :=
  (run integrate_stem_lna chol_lower randn lna_times lna_pars init_start
       param_update_inds stoich_matrix).
Local Abbreviation propose_lna :=
  (propose_lna integrate_stem_lna chol_lower randn lna_times lna_pars
               init_start param_update_inds stoich_matrix).

Local Abbreviation interval_returned :=
  (ProposerFacts.interval_returned integrate_stem_lna chol_lower randn
     lna_times lna_pars init_start param_update_inds stoich_matrix).
Local Abbreviation run_invariant :=
  (ProposerFacts.run_invariant integrate_stem_lna chol_lower randn
     lna_times lna_pars init_start param_update_inds stoich_matrix).
Local Abbreviation run_step :=
  (ProposerFacts.run_step integrate_stem_lna chol_lower randn
     lna_times lna_pars init_start param_update_inds stoich_matrix).
Local Abbreviation run_succ :=
  (ProposerFacts.run_succ integrate_stem_lna chol_lower randn
     lna_times lna_pars init_start param_update_inds stoich_matrix).
Local Abbreviation run_prefix :=
  (ProposerFacts.run_prefix integrate_stem_lna chol_lower randn
     lna_times lna_pars init_start param_update_inds stoich_matrix).
Local Abbreviation run_raised :=
  (ProposerFacts.run_raised integrate_stem_lna chol_lower randn
     lna_times lna_pars init_start param_update_inds stoich_matrix).
Local Abbreviation propose_lna_returned :=
  (ProposerFacts.propose_lna_returned integrate_stem_lna chol_lower randn
     lna_times lna_pars init_start param_update_inds stoich_matrix).
Local Abbreviation returned_path_row :=
  (ProposerFacts.returned_path_row integrate_stem_lna chol_lower randn
     lna_times lna_pars init_start param_update_inds stoich_matrix).
Local Abbreviation initialise_returned :=
  (ProposerFacts.initialise_returned lna_times lna_pars init_start
     stoich_matrix).

Lemma run_zero_initialise (st : state) :
  run 0 = Returned st <-> initialise = Returned st.
Proof.
  unfold Proposer.run. destruct initialise; simpl; tauto.
Qed.

(** X3: the returned path has one row per time point and one column per
    event after the time column; its column 0 is [lna_times], its row 0 is
    the first time followed by zeros; the returned draws have one row per
    event and one column per interval, with the sampled entries. *)
Theorem propose_lna_result_shape (out : proposal) :
  propose_lna = Returned out ->
  n_rows (out_lna_path out) = n_times /\
  n_cols (out_lna_path out) = (n_events + 1)%nat /\
  wf_mat (out_lna_path out) /\
  mcol (out_lna_path out) 0 = lna_times /\
  mrow (out_lna_path out) 0 = nth 0 lna_times 0 :: zeros n_events /\
  n_rows (out_draws out) = n_events /\
  n_cols (out_draws out) = (n_times - 1)%nat /\
  forall i j, (i < n_events)%nat -> (j < n_times - 1)%nat ->
              elem (out_draws out) i j = randn i j.
Proof.
  intros Hout.
  destruct (propose_lna_returned _ Hout) as [st [Hrun Heq]].
  destruct (run_invariant _ _ Hrun) as (Hk & (Hr & Hc & Hcols) & _).
  destruct (run_prefix _ 0 _ Hrun) as [st0 Hrun0]; [lia|].
  pose proof (returned_path_row _ 0 _ Hout ltac:(lia) Hrun0) as Hrow0.
  apply run_zero_initialise in Hrun0.
  destruct (initialise_returned _ Hrun0) as (_ & _ & _ & _ & _ & Hc0 & _).
  rewrite Hc0 in Hrow0.
  split; [rewrite Heq; exact Hc|].
  split; [rewrite Heq; unfold n_cols; simpl;
          rewrite length_map, length_seq; exact Hr|].
  split.
  { rewrite Heq. unfold wf_mat, transpose; simpl.
    apply Forall_forall. intros c Hin. apply in_map_iff in Hin.
    destruct Hin as [i [<- _]]. unfold mrow. now rewrite length_map. }
  split.
  { rewrite Heq. unfold mcol, transpose; simpl.
    rewrite (nth_map_seq vec _ _ _ []) by lia.
    apply nth_ext with (d := 0) (d' := 0).
    - unfold mrow. rewrite length_map. exact Hc.
    - intros j Hj. unfold mrow in Hj. rewrite length_map in Hj.
      rewrite nth_mrow. unfold elem.
      destruct (Hcols j) as [tl [-> _]]; [unfold n_cols in Hc; lia|].
      reflexivity. }
  split; [exact Hrow0|].
  rewrite Heq; simpl.
  split; [reflexivity|].
  split; [unfold n_cols; simpl; now rewrite length_map, length_seq|].
  intros i j Hi Hj. unfold elem, mcol; simpl.
  rewrite (nth_map_seq vec _ _ _ [] Hj).
  apply (nth_map_seq R (fun i0 => randn i0 j) _ _ 0 Hi).
Qed.

Lemma run_c_incid_nonneg (k : nat) (st : state) :
  run k = Returned st -> forall e, 0 <= nth e (c_incid st) 0.
Proof.
  revert st; induction k as [|k IH]; intros st Hrun e.
  - apply run_zero_initialise in Hrun.
    destruct (initialise_returned _ Hrun) as (_ & _ & _ & _ & _ & Hc & _).
    rewrite Hc. unfold zeros.
    destruct (Nat.lt_ge_cases e n_events) as [He|He].
    + rewrite nth_repeat_lt by exact He. lra.
    + rewrite nth_overflow by (rewrite repeat_length; exact He). lra.
  - destruct (run_step _ _ Hrun) as [st0 [Hrun0 Hstep]].
    destruct (interval_returned _ _ _ Hstep)
      as (L & cp & update & _ & _ & _ & _ & _ & _ & _ & Hnat & Hcn & Hc & _).
    rewrite Hc, nth_vadd by exact Hcn.
    pose proof (IH _ Hrun0 e).
    rewrite Hnat.
    pose proof (nth_map_clamp_nonneg (map (fun x => exp x - 1) (log_lna st)) e).
    lra.
Qed.

(** X4: no entry of the returned path is negative in an incidence
    column. *)
Theorem propose_lna_path_nonneg (out : proposal) (e j : nat) :
  propose_lna = Returned out -> (j < n_times)%nat ->
  0 <= elem (out_lna_path out) j (e + 1).
Proof.
  intros Hout Hj.
  destruct (propose_lna_returned _ Hout) as [st_end [Hend _]].
  destruct (run_prefix _ j _ Hend) as [st Hrun]; [lia|].
  rewrite <- nth_mrow, (returned_path_row _ j st Hout Hj Hrun).
  replace (e + 1)%nat with (S e) by lia. simpl.
  apply (run_c_incid_nonneg _ _ Hrun).
Qed.

(** X5: the diffusion matrix handed to the factorisation is square of side
    n_events, symmetric, and its entry (i, k) with i <= k is entry
    n_events + i + k * n_events of the integrated buffer. *)
Theorem propose_lna_diffusion_symmetric (j : nat) (st st' : state) :
  interval j st = Returned st' ->
  chol_lower (lna_diffusion st') <> None /\
  n_rows (lna_diffusion st') = n_events /\
  n_cols (lna_diffusion st') = n_events /\
  wf_mat (lna_diffusion st') /\
  (forall i k, elem (lna_diffusion st') i k = elem (lna_diffusion st') k i) /\
  (forall i k, (i <= k)%nat -> (k < n_events)%nat ->
     elem (lna_diffusion st') i k
     = nth (n_events + i + k * n_events) (lna_state_vec st') 0).
Proof.
  intros Hstep.
  destruct (interval_returned _ _ _ Hstep)
    as (L & cp & update & HL & Hbuf & _ & HD & _).
  rewrite HD, Hbuf.
  split; [congruence|].
  split; [reflexivity|].
  split; [unfold n_cols, symmatu; cbv zeta; simpl;
          now rewrite length_map, length_seq|].
  split; [apply symmatu_wf|].
  split; [intros i k; apply symmatu_symmetric|].
  intros i k Hik Hk.
  rewrite elem_symmatu by (simpl; lia).
  rewrite (proj2 (Nat.leb_le i k) Hik).
  unfold Proposer.integrated_diffusion.
  rewrite elem_mat_of_mem by lia.
  rewrite nth_skipn_shift. f_equal. lia.
Qed.

(** X6: entry by entry, a log-scale increment that is not positive gives a
    natural-scale increment of 0, a positive one gives exp of it minus 1, and
    in both cases the natural-scale increment is not negative. *)
Theorem propose_lna_increment_sign (j : nat) (st st' : state) (i : nat) :
  interval j st = Returned st' ->
  (nth i (log_lna st') 0 <= 0 -> nth i (nat_lna st') 0 = 0) /\
  (0 < nth i (log_lna st') 0 ->
   nth i (nat_lna st') 0 = exp (nth i (log_lna st') 0) - 1) /\
  0 <= nth i (nat_lna st') 0.
Proof.
  intros Hstep.
  destruct (interval_returned _ _ _ Hstep)
    as (L & cp & update & _ & _ & _ & _ & _ & _ & _ & Hnat & _).
  rewrite Hnat.
  split; [|split; [|apply nth_map_clamp_nonneg]].
  - intros H. rewrite map_map.
    destruct (Nat.lt_ge_cases i (length (log_lna st'))) as [Hi|Hi].
    + rewrite (nth_map_lt (fun x => clamp_neg (exp x - 1)) _ _ Hi).
      pose proof (exp_minus_1_nonpos _ H) as E.
      unfold clamp_neg. destruct (Rlt_dec _ 0); lra.
    + apply nth_overflow. rewrite length_map. exact Hi.
  - intros H. rewrite map_map.
    destruct (Nat.lt_ge_cases i (length (log_lna st'))) as [Hi|Hi].
    + rewrite (nth_map_lt (fun x => clamp_neg (exp x - 1)) _ _ Hi).
      pose proof (exp_minus_1_pos _ H) as E.
      apply clamp_neg_of_nonneg. lra.
    + rewrite (nth_overflow (log_lna st')) in H by exact Hi. lra.
Qed.


Lemma run_current_params_length (k : nat) (st : state) :
  run k = Returned st -> length (current_params st) = n_cols lna_pars.
Proof.
  revert st; induction k as [|k IH]; intros st Hrun.
  - apply run_zero_initialise in Hrun.
    destruct (initialise_returned _ Hrun) as (_ & _ & _ & Hcp & _).
    rewrite Hcp. unfold mrow. now rewrite length_map.
  - destruct (run_step _ _ Hrun) as [st0 [Hrun0 Hstep]].
    destruct (interval_returned _ _ _ Hstep)
      as (L & cp & update & _ & _ & _ & _ & _ & _ & _ & _ & _ & _ & _
          & _ & _ & _ & _ & _ & Hload & Hfit & Hcp & _).
    rewrite Hcp, copy_into_length by exact Hfit.
    destruct update.
    + apply rcpp_row_returned in Hload. destruct Hload as [_ ->].
      unfold mrow. now rewrite length_map.
    + injection Hload as <-. apply (IH _ Hrun0).
Qed.

(** X7: after any number of intervals the current parameter vector has the
    length of a parameter row and, outside the volume columns, equals the
    row of the largest index up to that interval whose update flag is set
    (row 0 when there is none). *)
Theorem propose_lna_row_in_force (k : nat) (st : state) :
  run k = Returned st ->
  (row_in_force param_update_inds k <= k)%nat /\
  (row_in_force param_update_inds k < n_rows lna_pars)%nat /\
  length (current_params st) = n_cols lna_pars /\
  forall i, (i < init_start \/ init_start + n_comps <= i)%nat ->
            nth i (current_params st) 0
            = elem lna_pars (row_in_force param_update_inds k) i.
Proof.
  revert st; induction k as [|k IH]; intros st Hrun.
  - apply run_zero_initialise in Hrun.
    destruct (initialise_returned _ Hrun) as (_ & Hr & _ & Hcp & _).
    simpl. rewrite Hcp. split; [lia|]. split; [exact Hr|].
    split; [unfold mrow; now rewrite length_map|].
    intros i _. apply nth_mrow.
  - destruct (run_step _ _ Hrun) as [st0 [Hrun0 Hstep]].
    destruct (IH _ Hrun0) as (Hle & Hlt & Hlen & Hout).
    destruct (interval_returned _ _ _ Hstep)
      as (L & cp & update & _ & _ & _ & _ & _ & _ & _ & _ & _ & _ & _
          & _ & Hil & Hvol & _ & Hflag & Hload & Hfit & Hcp & _).
    apply flag_at_returned in Hflag. destruct Hflag as [_ Hupd].
    assert (Hvl : length (init_volumes st) = n_comps).
    { rewrite Hvol, length_map, vadd_length; [exact Hil|].
      rewrite mat_vec_length. exact Hil. }
    replace (k + 1)%nat with (S k) in * by lia.
    simpl row_in_force. rewrite <- Hupd.
    assert (Hcopy : forall i, (i < init_start \/ init_start + n_comps <= i)%nat ->
                      nth i (current_params st) 0 = nth i cp 0).
    { intros i Hi. rewrite Hcp. destruct Hi as [Hi|Hi].
      - apply copy_into_before; assumption.
      - apply copy_into_after; [assumption | lia]. }
    assert (Hlen' : length (current_params st) = length cp)
      by (rewrite Hcp; apply copy_into_length; exact Hfit).
    destruct update.
    + apply rcpp_row_returned in Hload. destruct Hload as [Hr ->].
      split; [lia|]. split; [exact Hr|].
      split; [rewrite Hlen'; unfold mrow; now rewrite length_map|].
      intros i Hi. rewrite (Hcopy i Hi). apply nth_mrow.
    + injection Hload as <-.
      split; [lia|]. split; [exact Hlt|].
      split; [congruence|].
      intros i Hi. rewrite (Hcopy i Hi). apply Hout. exact Hi.
Qed.

(** X8: the callback is called once before the loop, with parameter row 0,
    and once per interval; every vector it receives has the length of a
    parameter row, and the last one is the current parameter vector, which
    is also what the integrator holds. *)
Theorem propose_lna_callback_trace (k : nat) (st : state) :
  run k = Returned st ->
  length (pushed st) = (k + 1)%nat /\
  Forall (fun p => length p = n_cols lna_pars) (pushed st) /\
  hd [] (pushed st) = mrow lna_pars 0 /\
  last (pushed st) [] = current_params st /\
  ode_pars st = current_params st.
Proof.
  revert st; induction k as [|k IH]; intros st Hrun.
  - apply run_zero_initialise in Hrun.
    destruct (initialise_returned _ Hrun)
      as (_ & _ & _ & Hcp & _ & _ & Hode & Hp & _).
    rewrite Hp, Hcp, Hode. simpl. repeat split; auto.
    constructor; [|constructor]. unfold mrow. now rewrite length_map.
  - pose proof (run_current_params_length _ _ Hrun) as Hlen.
    destruct (run_step _ _ Hrun) as [st0 [Hrun0 Hstep]].
    destruct (IH _ Hrun0) as (Hn & Hall & Hhd & _).
    destruct (interval_returned _ _ _ Hstep)
      as (L & cp & update & _ & _ & _ & _ & _ & _ & _ & _ & _ & _ & _
          & _ & _ & _ & _ & _ & _ & _ & _ & Hode & Hpush).
    rewrite Hpush.
    split; [rewrite length_app, Hn; simpl; lia|].
    split; [apply Forall_app; split; [exact Hall | constructor; auto]|].
    split; [destruct (pushed st0); [simpl in Hn; lia | exact Hhd]|].
    split; [apply last_last | exact Hode].
Qed.

(** X9: whatever the failure of an interval the loop reaches, the call ends
    in that failure. *)
Theorem propose_lna_failure_propagates (j : nat) (st : state) (e : failure) :
  run j = Returned st -> interval j st = Raised e -> (j < n_times - 1)%nat ->
  propose_lna = Raised e.
Proof.
  intros Hrun Hstep Hj. unfold Proposer.propose_lna.
  rewrite (run_raised _ _ _ _ Hrun Hstep Hj). reflexivity.
Qed.

(** X10: a parameter matrix without rows ends the call in the bounds check
    of its row 0. *)
Theorem propose_lna_no_parameter_row :
  n_rows lna_pars = 0%nat -> propose_lna = Raised IndexOutOfBounds.
Proof.
  intros H. unfold Proposer.propose_lna, Proposer.run, Proposer.initialise.
  rewrite rcpp_row_no_rows by lia. reflexivity.
Qed.

(** X11: what a call that returns has checked on its way: a time point, a
    parameter row 0 with room for the volumes and, once there is an interval,
    at least one event, a flag for every time point and a parameter row for
    every flagged time point after the first. *)
Theorem propose_lna_returns_only_if (out : proposal) :
  propose_lna = Returned out ->
  (1 <= n_times)%nat /\
  (1 <= n_rows lna_pars)%nat /\
  (init_start + n_comps <= n_cols lna_pars)%nat /\
  ((2 <= n_times)%nat ->
   (1 <= n_events)%nat /\
   (n_times <= length param_update_inds)%nat /\
   forall j, (1 <= j)%nat -> (j < n_times)%nat ->
             nth j param_update_inds false = true ->
             (j < n_rows lna_pars)%nat).
Proof.
  intros Hout.
  destruct (propose_lna_returned _ Hout) as [st_end [Hend _]].
  destruct (run_prefix _ 0 _ Hend) as [st0 Hrun0]; [lia|].
  apply run_zero_initialise in Hrun0.
  destruct (initialise_returned _ Hrun0) as (Hn & Hr & Hfit & _).
  repeat (split; [assumption|]).
  intros H2.
  assert (Hint : forall j, (j < n_times - 1)%nat ->
            (1 <= n_events)%nat /\
            (j + 1 < length param_update_inds)%nat /\
            (nth (j + 1) param_update_inds false = true ->
             (j + 1 < n_rows lna_pars)%nat)).
  { intros j Hj.
    destruct (run_prefix _ (S j) _ Hend) as [st' Hrun']; [lia|].
    destruct (run_step _ _ Hrun') as [st [Hrun Hstep]].
    destruct (interval_returned _ _ _ Hstep)
      as (L & cp & update & _ & _ & _ & _ & _ & _ & _ & _ & _ & _ & HP
          & _ & _ & _ & _ & Hflag & Hload & _).
    apply flag_at_returned in Hflag. destruct Hflag as [Hfl Hupd].
    unfold set_col_span_checked in HP.
    apply bind_returned in HP. destruct HP as [u [Hb _]].
    apply check_returned in Hb.
    apply andb_prop in Hb; destruct Hb as [Hb _].
    apply andb_prop in Hb; destruct Hb as [_ Hb].
    apply Nat.leb_le in Hb.
    split; [exact Hb|]. split; [exact Hfl|].
    intros Ht. rewrite <- Hupd in Ht. rewrite Ht in Hload.
    apply rcpp_row_returned in Hload. apply Hload. }
  split; [apply (Hint 0%nat); lia|].
  split.
  - destruct (Hint (n_times - 2)%nat) as (_ & Hl & _); lia.
  - intros j H1 Hj Ht.
    destruct (Hint (j - 1)%nat) as (_ & _ & Hrow); [lia|].
    replace (j - 1 + 1)%nat with j in Hrow by lia. auto.
Qed.

Lemma initialise_returns :
  (1 <= n_times)%nat -> (1 <= n_rows lna_pars)%nat ->
  (init_start + n_comps <= n_cols lna_pars)%nat ->
  exists st0, initialise = Returned st0.
Proof.
  intros Hn Hr Hfit.
  assert (E1 : (0 <? n_rows lna_pars)%nat = true) by (apply Nat.ltb_lt; lia).
  assert (E2 : (init_start + n_comps <=? length (mrow lna_pars 0))%nat = true).
  { apply Nat.leb_le. unfold mrow. rewrite length_map. exact Hfit. }
  assert (E3 : (0 <? n_rows (zeros_mat (n_events + 1) n_times))%nat = true)
    by (apply Nat.ltb_lt; simpl; lia).
  assert (E4 : (length lna_times =? n_cols (zeros_mat (n_events + 1) n_times))%nat
               = true).
  { apply Nat.eqb_eq. unfold n_cols, zeros_mat; simpl.
    now rewrite repeat_length. }
  assert (E5 : (1 <=? n_times)%nat = true) by (apply Nat.leb_le; lia).
  unfold Proposer.initialise, rcpp_row, set_row_checked.
  rewrite E1. cbn [bind check]. rewrite E2. cbn [bind check].
  rewrite E3. cbn [bind check]. rewrite E4. cbn [bind check].
  rewrite E5. cbn [bind check]. eauto.
Qed.

(** X12: with a single time point the loop does not run: given a parameter
    row 0 with room for the volumes, the call returns, whatever the
    integrator and the factorisation are, a path of one row (the time
    followed by zeros) and draws without columns. *)
Theorem propose_lna_single_time_point :
  n_times = 1%nat -> (1 <= n_rows lna_pars)%nat ->
  (init_start + n_comps <= n_cols lna_pars)%nat ->
  exists out,
    propose_lna = Returned out /\
    n_rows (out_lna_path out) = 1%nat /\
    mrow (out_lna_path out) 0 = nth 0 lna_times 0 :: zeros n_events /\
    n_cols (out_draws out) = 0%nat.
Proof.
  intros H1 Hr Hfit.
  destruct (initialise_returns ltac:(lia) Hr Hfit) as [st0 Hinit].
  assert (Hout : propose_lna
                 = Returned (mkProposal draws (transpose (lna_path st0)))).
  { unfold Proposer.propose_lna, Proposer.run. rewrite H1, Hinit. reflexivity. }
  eexists. split; [exact Hout|].
  destruct (initialise_returned _ Hinit)
    as (_ & _ & _ & _ & _ & Hc0 & _ & _ & (_ & Hc & _) & _).
  split; [simpl; rewrite Hc; exact H1|].
  split.
  - rewrite (returned_path_row _ 0 st0 Hout ltac:(lia)
               (proj2 (run_zero_initialise st0) Hinit)).
    now rewrite Hc0.
  - unfold n_cols, Proposer.draws; simpl.
    rewrite length_map, length_seq. fold n_times. lia.
Qed.

Section Progress.

(** The integrator works in place: the buffer keeps its size. *)
Hypothesis integrate_length :
  forall pars x t_L t_R step,
    length (integrate_stem_lna pars x t_L t_R step) = length x.

(** At every interval the loop reaches, the factorisation succeeds and
    returns a square factor of side n_events. *)
Hypothesis chol_succeeds :
  forall j st, run j = Returned st -> (j < n_times - 1)%nat ->
    exists L,
      chol_lower (symmatu (Proposer.integrated_diffusion
                             integrate_stem_lna lna_times stoich_matrix j st))
        = Some L /\
      n_rows L = n_events /\ n_cols L = n_events.

Hypothesis some_time : (1 <= n_times)%nat.
Hypothesis some_event : (1 <= n_events)%nat.
Hypothesis enough_flags : (n_times <= length param_update_inds)%nat.
Hypothesis enough_rows : (n_times <= n_rows lna_pars)%nat.
Hypothesis volumes_fit : (init_start + n_comps <= n_cols lna_pars)%nat.

Lemma check_true (b : bool) (e : failure) : b = true -> check b e = Returned tt.
Proof. intros ->. reflexivity. Qed.

Lemma interval_returns (k : nat) (st : state) :
  run k = Returned st -> (k < n_times - 1)%nat ->
  exists st', interval k st = Returned st'.
Proof.
  intros Hrun Hk.
  destruct (run_invariant _ _ Hrun) as (_ & (Hr & Hc & _) & Hlen & His & _).
  pose proof (run_current_params_length _ _ Hrun) as Hcpl.
  destruct (chol_succeeds k st Hrun Hk) as [L [HL [HLr HLc]]].
  assert (Hd : length (mcol draws k) = n_events).
  { unfold mcol, Proposer.draws; simpl.
    rewrite (nth_map_seq vec (fun j => map (fun i => randn i j) (seq 0 n_events))
               _ _ [] Hk).
    now rewrite length_map, length_seq. }
  assert (Hdrift : length (Proposer.integrated_drift
                             integrate_stem_lna lna_times stoich_matrix k st)
                   = n_events).
  { unfold Proposer.integrated_drift, Proposer.integrated.
    rewrite length_firstn, integrate_length, zeros_length.
    unfold Proposer.n_odes. lia. }
  assert (Hrow0 : length (firstn n_comps (skipn init_start (mrow lna_pars 0)))
                  = n_comps).
  { rewrite length_firstn, length_skipn. unfold mrow. rewrite length_map.
    unfold n_cols in volumes_fit. lia. }
  unfold Proposer.interval. rewrite HL.
  unfold mat_vec_checked at 1.
  rewrite check_true by (apply Nat.eqb_eq; congruence). cbn [bind].
  unfold vadd_checked at 1.
  rewrite check_true
    by (apply Nat.eqb_eq; rewrite mat_vec_length; congruence).
  cbn [bind].
  set (lg := vadd _ (mat_vec L (mcol draws k))).
  assert (Hlg : length lg = n_events).
  { unfold lg. rewrite vadd_length; [exact Hdrift|].
    rewrite mat_vec_length. congruence. }
  set (nat_inc := map clamp_neg (map (fun x => exp x - 1) lg)).
  assert (Hni : length nat_inc = n_events)
    by (unfold nat_inc; now rewrite !length_map).
  unfold vadd_checked at 1.
  rewrite check_true by (apply Nat.eqb_eq; congruence). cbn [bind].
  set (c := vadd (c_incid st) nat_inc).
  assert (Hcl : length c = n_events)
    by (unfold c; rewrite vadd_length; congruence).
  unfold set_col_span_checked.
  rewrite check_true
    by (rewrite !andb_true_iff, !Nat.ltb_lt, Nat.leb_le; lia).
  cbn [bind].
  rewrite check_true by (apply Nat.eqb_eq; lia). cbn [bind].
  unfold mat_vec_checked.
  rewrite check_true by (apply Nat.eqb_eq; symmetry; exact Hcl). cbn [bind].
  unfold vadd_checked.
  rewrite check_true
    by (apply Nat.eqb_eq; rewrite mat_vec_length, His; exact Hrow0).
  cbn [bind].
  set (vols := map clamp_neg _).
  assert (Hvl : length vols = n_comps).
  { unfold vols. rewrite length_map, vadd_length; rewrite His;
      [exact Hrow0 | rewrite mat_vec_length; exact Hrow0]. }
  unfold flag_at.
  rewrite check_true by (apply Nat.ltb_lt; lia). cbn [bind].
  destruct (nth (k + 1) param_update_inds false).
  - unfold rcpp_row.
    rewrite check_true by (apply Nat.ltb_lt; lia). cbn [bind].
    rewrite check_true
      by (apply Nat.leb_le; unfold mrow; rewrite length_map, Hvl;
          exact volumes_fit).
    cbn [bind]. eauto.
  - cbn [bind].
    rewrite check_true by (apply Nat.leb_le; rewrite Hvl, Hcpl; exact volumes_fit).
    cbn [bind]. eauto.
Qed.

Lemma run_returns (k : nat) :
  (k <= n_times - 1)%nat -> exists st, run k = Returned st.
Proof.
  induction k as [|k IH]; intros Hk.
  - destruct (initialise_returns some_time ltac:(lia) volumes_fit) as [st0 H].
    exists st0. apply run_zero_initialise. exact H.
  - destruct IH as [st Hrun]; [lia|].
    destruct (interval_returns _ _ Hrun ltac:(lia)) as [st' Hstep].
    exists st'. rewrite run_succ, Hrun. exact Hstep.
Qed.

(** X13: with an integrator that keeps the size of the buffer and a
    factorisation that succeeds, with a factor of side n_events, at every
    interval the loop reaches, the call returns whenever there is a time
    point, an event, a flag and a parameter row for every time point, and
    room for the volumes in a parameter row. *)
Theorem propose_lna_returns_if : exists out, propose_lna = Returned out.
Proof.
  destruct (run_returns (n_times - 1) (le_n _)) as [st Hrun].
  unfold Proposer.propose_lna. rewrite Hrun. cbn [bind]. eauto.
Qed.

End Progress.

End ProposerMore.

Section TwoTables.

Variable integrate_stem_lna : vec -> vec -> R -> R -> R -> vec.
Variable chol_lower : mat -> option mat.
Variable randn : nat -> nat -> R.
Variable lna_times : vec.
Variable lna_pars lna_pars' : mat.
Variable init_start : nat.
Variable param_update_inds : list bool.
Variable stoich_matrix : mat.

Local Abbreviation n_comps := (n_comps stoich_matrix).
Local Abbreviation interval_with table :=
  (interval integrate_stem_lna chol_lower randn lna_times table init_start
            param_update_inds stoich_matrix).

Hypothesis same_rows : n_rows lna_pars' = n_rows lna_pars.
Hypothesis same_cols : n_cols lna_pars' = n_cols lna_pars.
Hypothesis same_row0 : mrow lna_pars' 0 = mrow lna_pars 0.
Hypothesis same_outside_volumes :
  forall r i, (i < init_start \/ init_start + n_comps <= i)%nat ->
              elem lna_pars' r i = elem lna_pars r i.

Lemma initialise_same_table :
  initialise lna_times lna_pars' init_start stoich_matrix
  = initialise lna_times lna_pars init_start stoich_matrix.
Proof.
  unfold Proposer.initialise, rcpp_row. rewrite same_rows.
  destruct (0 <? n_rows lna_pars)%nat; cbn [bind check]; [|reflexivity].
  rewrite same_row0. reflexivity.
Qed.

Lemma interval_same_table (j : nat) (st : state) :
  interval_with lna_pars' j st = interval_with lna_pars j st.
Proof.
  unfold Proposer.interval.
  destruct (chol_lower _) as [L|]; [|reflexivity].
  destruct (mat_vec_checked L _) as [Ld|]; cbn [bind]; [|reflexivity].
  destruct (vadd_checked _ Ld) as [lg|]; cbn [bind]; [|reflexivity].
  destruct (vadd_checked (c_incid st) _) as [c|]; cbn [bind]; [|reflexivity].
  destruct (set_col_span_checked _ _ _ _ c) as [P|]; cbn [bind]; [|reflexivity].
  destruct (mat_vec_checked stoich_matrix c) as [Sc|] eqn:HSc; cbn [bind];
    [|reflexivity].
  destruct (vadd_checked (init_state st) Sc) as [sv|] eqn:Hsv; cbn [bind];
    [|reflexivity].
  destruct (flag_at param_update_inds (j + 1)) as [update|]; cbn [bind];
    [|reflexivity].
  apply mat_vec_checked_returned in HSc. destruct HSc as [_ ->].
  apply vadd_checked_returned in Hsv. destruct Hsv as [Hlen ->].
  rewrite mat_vec_length in Hlen.
  assert (Hvl : length (map clamp_neg
                   (vadd (init_state st) (mat_vec stoich_matrix c))) = n_comps).
  { rewrite length_map, vadd_length; [exact Hlen|].
    rewrite mat_vec_length. exact Hlen. }
  destruct update; [|reflexivity].
  unfold rcpp_row. rewrite same_rows.
  destruct (j + 1 <? n_rows lna_pars)%nat; cbn [bind check]; [|reflexivity].
  assert (Hrl : length (mrow lna_pars' (j + 1)) = length (mrow lna_pars (j + 1))).
  { unfold mrow. rewrite !length_map. exact same_cols. }
  rewrite Hrl.
  destruct (_ <=? _)%nat; cbn [bind check]; [|reflexivity].
  rewrite (copy_into_agree _ (mrow lna_pars' (j + 1)) (mrow lna_pars (j + 1)));
    [reflexivity | exact Hrl |].
  intros i Hi. rewrite Hvl in Hi. rewrite !nth_mrow.
  apply same_outside_volumes. exact Hi.
Qed.

(** X14: the volume columns of the parameter rows after row 0 are never
    used: two parameter matrices of one shape that share row 0 and agree
    outside the volume columns give the same result, failure included. *)
Theorem propose_lna_ignores_later_volumes :
  propose_lna integrate_stem_lna chol_lower randn lna_times lna_pars'
              init_start param_update_inds stoich_matrix
  = propose_lna integrate_stem_lna chol_lower randn lna_times lna_pars
                init_start param_update_inds stoich_matrix.
Proof.
  unfold Proposer.propose_lna, Proposer.run.
  rewrite initialise_same_table.
  destruct (initialise _ _ _ _) as [st0|]; cbn [bind]; [|reflexivity].
  assert (H : forall js st,
            for_each js (interval_with lna_pars') st
            = for_each js (interval_with lna_pars) st).
  { induction js as [|j js IH]; intros st; simpl; [reflexivity|].
    rewrite interval_same_table.
    destruct (interval_with lna_pars j st); cbn [bind]; [apply IH | reflexivity]. }
  rewrite H. reflexivity.
Qed.

End TwoTables.
End ProposerMore.

Module ProposerMoreWitnesses.
Import Proposer Tracking Samples ProposerMore.

Local Abbreviation integrate_stem_lna := unit_noise.
Local Abbreviation chol_lower := chol_1x1.
Local Abbreviation randn := sample_randn.
Local Abbreviation lna_times := sample_times.
Local Abbreviation lna_pars := sample_lna_pars.
Local Abbreviation init_start := sample_init_start.
Local Abbreviation param_update_inds := sample_flags.
Local Abbreviation stoich_matrix := sample_stoich.

Local Abbreviation n_events := (n_events stoich_matrix).
Local Abbreviation n_comps := (n_comps stoich_matrix).
Local Abbreviation n_times := (n_times lna_times).
Local Abbreviation interval :=
  (interval integrate_stem_lna chol_lower randn lna_times lna_pars init_start
            param_update_inds stoich_matrix).
Local Abbreviation run :=
  (run integrate_stem_lna chol_lower randn lna_times lna_pars init_start
       param_update_inds stoich_matrix).
Local Abbreviation propose_lna :=
  (propose_lna integrate_stem_lna chol_lower randn lna_times lna_pars
               init_start param_update_inds stoich_matrix).

Lemma sample_interval_returns :
  exists st st', run 1 = Returned st /\ interval 1 st = Returned st'.
Proof.
  destruct ProposerWitnesses.sample_run_returns as [st' H].
  destruct (ProposerFacts.run_step _ _ _ _ _ _ _ _ _ _ H) as [st [Hrun Hstep]].
  eauto.
Qed.

Lemma propose_lna_result_shape_witness :
  exists out,
    propose_lna = Returned out /\
    n_rows (out_lna_path out) = n_times /\
    n_cols (out_lna_path out) = (n_events + 1)%nat /\
    wf_mat (out_lna_path out) /\
    mcol (out_lna_path out) 0 = lna_times /\
    mrow (out_lna_path out) 0 = nth 0 lna_times 0 :: zeros n_events /\
    n_rows (out_draws out) = n_events /\
    n_cols (out_draws out) = (n_times - 1)%nat /\
    forall i j, (i < n_events)%nat -> (j < n_times - 1)%nat ->
                elem (out_draws out) i j = randn i j.
Proof.
  destruct ProposerWitnesses.sample_proposal_returns as [out Hout].
  exists out. split; [exact Hout|].
  apply (propose_lna_result_shape
           integrate_stem_lna chol_lower randn lna_times lna_pars init_start
           param_update_inds stoich_matrix out Hout).
Defined.

Lemma propose_lna_path_nonneg_witness :
  exists out,
    propose_lna = Returned out /\ (2 < n_times)%nat /\
    0 <= elem (out_lna_path out) 2 (0 + 1).
Proof.
  destruct ProposerWitnesses.sample_proposal_returns as [out Hout].
  exists out. split; [exact Hout|]. split; [vm_compute; lia|].
  apply (propose_lna_path_nonneg
           integrate_stem_lna chol_lower randn lna_times lna_pars init_start
           param_update_inds stoich_matrix out 0 2 Hout).
  vm_compute; lia.
Defined.

Lemma propose_lna_diffusion_symmetric_witness :
  exists st st',
    interval 1 st = Returned st' /\
    chol_lower (lna_diffusion st') <> None /\
    n_rows (lna_diffusion st') = n_events /\
    n_cols (lna_diffusion st') = n_events /\
    wf_mat (lna_diffusion st') /\
    (forall i k, elem (lna_diffusion st') i k = elem (lna_diffusion st') k i) /\
    (forall i k, (i <= k)%nat -> (k < n_events)%nat ->
       elem (lna_diffusion st') i k
       = nth (n_events + i + k * n_events) (lna_state_vec st') 0).
Proof.
  destruct sample_interval_returns as [st [st' [_ Hstep]]].
  exists st, st'. split; [exact Hstep|].
  apply (propose_lna_diffusion_symmetric
           integrate_stem_lna chol_lower randn lna_times lna_pars init_start
           param_update_inds stoich_matrix 1 st st' Hstep).
Defined.

Lemma propose_lna_increment_sign_witness :
  exists st st',
    interval 1 st = Returned st' /\
    (nth 0 (log_lna st') 0 <= 0 -> nth 0 (nat_lna st') 0 = 0) /\
    (0 < nth 0 (log_lna st') 0 ->
     nth 0 (nat_lna st') 0 = exp (nth 0 (log_lna st') 0) - 1) /\
    0 <= nth 0 (nat_lna st') 0.
Proof.
  destruct sample_interval_returns as [st [st' [_ Hstep]]].
  exists st, st'. split; [exact Hstep|].
  apply (propose_lna_increment_sign
           integrate_stem_lna chol_lower randn lna_times lna_pars init_start
           param_update_inds stoich_matrix 1 st st' 0 Hstep).
Defined.

Lemma propose_lna_row_in_force_witness :
  exists st,
    run 2 = Returned st /\
    (row_in_force param_update_inds 2 <= 2)%nat /\
    (row_in_force param_update_inds 2 < n_rows lna_pars)%nat /\
    length (current_params st) = n_cols lna_pars /\
    forall i, (i < init_start \/ init_start + n_comps <= i)%nat ->
              nth i (current_params st) 0
              = elem lna_pars (row_in_force param_update_inds 2) i.
Proof.
  destruct ProposerWitnesses.sample_run_returns as [st Hrun].
  exists st. split; [exact Hrun|].
  apply (propose_lna_row_in_force
           integrate_stem_lna chol_lower randn lna_times lna_pars init_start
           param_update_inds stoich_matrix 2 st Hrun).
Defined.

Lemma propose_lna_callback_trace_witness :
  exists st,
    run 2 = Returned st /\
    length (pushed st) = (2 + 1)%nat /\
    Forall (fun p => length p = n_cols lna_pars) (pushed st) /\
    hd [] (pushed st) = mrow lna_pars 0 /\
    last (pushed st) [] = current_params st /\
    ode_pars st = current_params st.
Proof.
  destruct ProposerWitnesses.sample_run_returns as [st Hrun].
  exists st. split; [exact Hrun|].
  apply (propose_lna_callback_trace
           integrate_stem_lna chol_lower randn lna_times lna_pars init_start
           param_update_inds stoich_matrix 2 st Hrun).
Defined.

Lemma propose_lna_returns_only_if_witness :
  exists out,
    propose_lna = Returned out /\
    (1 <= n_times)%nat /\
    (1 <= n_rows lna_pars)%nat /\
    (init_start + n_comps <= n_cols lna_pars)%nat /\
    ((2 <= n_times)%nat ->
     (1 <= n_events)%nat /\
     (n_times <= length param_update_inds)%nat /\
     forall j, (1 <= j)%nat -> (j < n_times)%nat ->
               nth j param_update_inds false = true ->
               (j < n_rows lna_pars)%nat).
Proof.
  destruct ProposerWitnesses.sample_proposal_returns as [out Hout].
  exists out. split; [exact Hout|].
  apply (propose_lna_returns_only_if
           integrate_stem_lna chol_lower randn lna_times lna_pars init_start
           param_update_inds stoich_matrix out Hout).
Defined.

(** The table with a single row: the flag of index 1 asks for row 1, which
    does not exist. *)
Lemma one_row_interval_raises :
  exists st,
    Proposer.run unit_noise chol_1x1 sample_randn sample_times one_row_pars
      sample_init_start sample_flags sample_stoich 0 = Returned st /\
    Proposer.interval unit_noise chol_1x1 sample_randn sample_times
      one_row_pars sample_init_start sample_flags sample_stoich 0 st
    = Raised IndexOutOfBounds.
Proof.
  eexists. split; [reflexivity|].
  unfold Proposer.interval; cbn.
  destruct (Rlt_dec 0 1) as [_|Hn]; [|exfalso; lra]. reflexivity.
Qed.

Lemma propose_lna_failure_propagates_witness :
  Proposer.propose_lna unit_noise chol_1x1 sample_randn sample_times
    one_row_pars sample_init_start sample_flags sample_stoich
  = Raised IndexOutOfBounds.
Proof.
  destruct one_row_interval_raises as [st [Hrun Hstep]].
  apply (propose_lna_failure_propagates
           unit_noise chol_1x1 sample_randn sample_times one_row_pars
           sample_init_start sample_flags sample_stoich
           0 st IndexOutOfBounds Hrun Hstep).
  vm_compute; lia.
Defined.

Lemma propose_lna_no_parameter_row_witness :
  n_rows no_row_pars = 0%nat /\
  Proposer.propose_lna unit_noise chol_1x1 sample_randn sample_times
    no_row_pars sample_init_start sample_flags sample_stoich
  = Raised IndexOutOfBounds.
Proof.
  split; [reflexivity|].
  apply (propose_lna_no_parameter_row
           unit_noise chol_1x1 sample_randn sample_times no_row_pars
           sample_init_start sample_flags sample_stoich).
  reflexivity.
Defined.

Lemma propose_lna_single_time_point_witness :
  exists out,
    Proposer.propose_lna bad_noise chol_1x1 sample_randn [5] sample_lna_pars
      sample_init_start [] sample_stoich = Returned out /\
    n_rows (out_lna_path out) = 1%nat /\
    mrow (out_lna_path out) 0 = nth 0 [5] 0 :: zeros n_events /\
    n_cols (out_draws out) = 0%nat.
Proof.
  apply (propose_lna_single_time_point
           bad_noise chol_1x1 sample_randn [5] sample_lna_pars
           sample_init_start [] sample_stoich); vm_compute; lia.
Defined.

Lemma other_volumes_agree (r i : nat) :
  (i < sample_init_start \/ sample_init_start + n_comps <= i)%nat ->
  elem other_volumes_pars r i = elem sample_lna_pars r i.
Proof.
  intros H. destruct i as [|[|[|i]]].
  - reflexivity.
  - exfalso. vm_compute in H. lia.
  - exfalso. vm_compute in H. lia.
  - unfold elem, mcol; simpl. reflexivity.
Qed.

Lemma propose_lna_ignores_later_volumes_witness :
  Proposer.propose_lna unit_noise chol_1x1 sample_randn sample_times
    other_volumes_pars sample_init_start sample_flags sample_stoich
  = propose_lna.
Proof.
  apply (propose_lna_ignores_later_volumes
           unit_noise chol_1x1 sample_randn sample_times
           sample_lna_pars other_volumes_pars
           sample_init_start sample_flags sample_stoich).
  - reflexivity.
  - reflexivity.
  - reflexivity.
  - exact other_volumes_agree.
Defined.

(** The integrator that adds 1 to every entry of the buffer keeps its size
    and gives each interval a diffusion of 1, which the factorisation
    accepts. *)
Lemma shift_one_chol_succeeds (j : nat) (st : state) :
  Proposer.run shift_one chol_1x1 sample_randn sample_times sample_lna_pars
               sample_init_start sample_flags sample_stoich j = Returned st ->
  (j < n_times - 1)%nat ->
  exists L,
    chol_1x1 (symmatu (Proposer.integrated_diffusion
                         shift_one sample_times sample_stoich j st)) = Some L /\
    n_rows L = n_events /\ n_cols L = n_events.
Proof.
  intros _ _. eexists. unfold chol_1x1; cbn.
  destruct (Rlt_dec 0 (0 + 1)) as [_|Hn]; [|exfalso; lra].
  split; [reflexivity|]. split; reflexivity.
Qed.

Lemma shift_one_keeps_length (pars x : vec) (t_L t_R step : R) :
  length (shift_one pars x t_L t_R step) = length x.
Proof. unfold shift_one. apply length_map. Qed.

Lemma propose_lna_returns_if_witness :
  exists out,
    Proposer.propose_lna shift_one chol_1x1 sample_randn sample_times
      sample_lna_pars sample_init_start sample_flags sample_stoich
    = Returned out.
Proof.
  apply (propose_lna_returns_if
           shift_one chol_1x1 sample_randn sample_times sample_lna_pars
           sample_init_start sample_flags sample_stoich).
  - exact shift_one_keeps_length.
  - exact shift_one_chol_succeeds.
  - vm_compute; lia.
  - vm_compute; lia.
  - vm_compute; lia.
  - vm_compute; lia.
  - vm_compute; lia.
Defined.

End ProposerMoreWitnesses.

(** ** lna_density2: edge cases, parameter rows, dimensions, independence *)

Module EvaluatorMore.
Import Evaluator Tracking.

Section EvaluatorMore.

Variable integrate_stem_lna : vec -> vec -> R -> R -> R -> vec.
Variable dmvtn : vec -> vec -> mat -> bool -> vec.
Variable path : path_bundle.
Variable lna_times : vec.
Variable lna_pars : mat.
Variable param_update_inds : list bool.
Variable flow_matrix : mat.

Local Abbreviation n_comps := (n_comps flow_matrix).
Local Abbreviation n_times := (n_times lna_times).
Local Abbreviation initialise := (initialise path lna_pars flow_matrix).
Local Abbreviation interval :=
  (interval integrate_stem_lna dmvtn path lna_times lna_pars
            param_update_inds flow_matrix).
Local Abbreviation run :=
  (run integrate_stem_lna dmvtn path lna_times lna_pars
       param_update_inds flow_matrix).
Local Abbreviation lna_density2 :=
  (lna_density2 integrate_stem_lna dmvtn path lna_times lna_pars
                param_update_inds flow_matrix).

Local Abbreviation run_step :=
  (EvaluatorFacts.density_run_step integrate_stem_lna dmvtn path lna_times
     lna_pars param_update_inds flow_matrix).
Local Abbreviation run_succ :=
  (EvaluatorFacts.density_run_succ integrate_stem_lna dmvtn path lna_times
     lna_pars param_update_inds flow_matrix).
Local Abbreviation run_prefix :=
  (EvaluatorFacts.density_run_prefix integrate_stem_lna dmvtn path lna_times
     lna_pars param_update_inds flow_matrix).
Local Abbreviation run_zero :=
  (EvaluatorFacts.density_run_zero integrate_stem_lna dmvtn path lna_times
     lna_pars param_update_inds flow_matrix).
Local Abbreviation interval_returned :=
  (EvaluatorFacts.density_interval_returned integrate_stem_lna dmvtn path
     lna_times lna_pars param_update_inds flow_matrix).
Local Abbreviation lna_density2_returned :=
  (EvaluatorFacts.lna_density2_returned integrate_stem_lna dmvtn path
     lna_times lna_pars param_update_inds flow_matrix).

(** X15: with at most one time point the loop does not run: given a
    parameter row 0, the bundle comes back as it is with a log-density
    of 0. *)
Theorem lna_density2_no_interval :
  (n_times <= 1)%nat -> (1 <= n_rows lna_pars)%nat ->
  lna_density2 =
  Returned (mkDensity (lna_path path) (res_path path) (drift path)
                      (residual path) (diffusion path) (data_log_lik path) 0).
Proof.
  intros Hn Hr.
  unfold Evaluator.lna_density2, Evaluator.run, Evaluator.initialise, rcpp_row.
  replace (n_times - 1)%nat with 0%nat by lia.
  replace (0 <? n_rows lna_pars)%nat with true
    by (symmetry; apply Nat.ltb_lt; lia).
  reflexivity.
Qed.

(** X16: a parameter matrix without rows ends the call in the bounds check
    of its row 0. *)
Theorem lna_density2_no_parameter_row :
  n_rows lna_pars = 0%nat -> lna_density2 = Raised IndexOutOfBounds.
Proof.
  intros H.
  unfold Evaluator.lna_density2, Evaluator.run, Evaluator.initialise.
  rewrite rcpp_row_no_rows by lia. reflexivity.
Qed.

Lemma reloaded_succ (k : nat) :
  reloaded param_update_inds (S k) =
  reloaded param_update_inds k
  ++ (if nth k param_update_inds false then [k] else []).
Proof.
  unfold reloaded. rewrite seq_S, filter_app. simpl.
  destruct (nth k param_update_inds false); reflexivity.
Qed.

(** X17: the callback receives parameter row 0 before the loop and then,
    in order, the row of every flagged index below the number of
    iterations done; nothing else is ever pushed, and the integrator always
    holds the current parameter vector, which is the last row pushed. *)
Theorem lna_density2_callback_trace (k : nat) (st : state) :
  run k = Returned st ->
  pushed st =
    mrow lna_pars 0 :: map (mrow lna_pars) (reloaded param_update_inds k) /\
  Forall (fun i => (i < n_rows lna_pars)%nat) (reloaded param_update_inds k) /\
  last (pushed st) [] = current_params st /\
  ode_pars st = current_params st.
Proof.
  revert st; induction k as [|k IH]; intros st Hrun.
  - destruct (run_zero _ Hrun) as (_ & _ & _ & Hcp & Hode & Hp).
    rewrite Hp, Hcp, Hode. simpl. auto.
  - destruct (run_step _ _ Hrun) as [st0 [Hrun0 Hstep]].
    destruct (IH _ Hrun0) as (Hp & Hall & Hlast & Hode).
    destruct (interval_returned _ _ _ Hstep)
      as (update & Hflag & Hpars & Hode' & _).
    apply flag_at_returned in Hflag. destruct Hflag as [_ Hupd].
    replace (S k - 1)%nat with k in * by lia.
    rewrite reloaded_succ, <- Hupd.
    destruct update.
    + destruct Hpars as (Hr & Hcp & Hpush).
      rewrite Hpush, Hp, Hcp, Hode', map_app. simpl.
      split; [reflexivity|].
      split; [apply Forall_app; split; [exact Hall | constructor; auto]|].
      split; [|reflexivity].
      apply (last_last (mrow lna_pars 0
                        :: map (mrow lna_pars) (reloaded param_update_inds k))).
    + destruct Hpars as (Hcp & Hpush).
      rewrite Hpush, Hcp, Hode', app_nil_r. auto.
Qed.

Lemma density_run_raised (j m : nat) (st : state) (e : failure) :
  run j = Returned st -> interval (S j) st = Raised e -> (j < m)%nat ->
  run m = Raised e.
Proof.
  intros Hrj He. induction m as [|m IH]; intros Hlt; [lia|].
  rewrite run_succ.
  destruct (Nat.eq_dec j m) as [<-|Hne].
  - rewrite Hrj. exact He.
  - rewrite IH by lia. reflexivity.
Qed.

(** X18: whatever the failure of an iteration the loop reaches, the call
    ends in that failure. *)
Theorem lna_density2_failure_propagates (j : nat) (st : state) (e : failure) :
  run j = Returned st -> interval (S j) st = Raised e ->
  (j < n_times - 1)%nat ->
  lna_density2 = Raised e.
Proof.
  intros Hrun Hstep Hj. unfold Evaluator.lna_density2.
  rewrite (density_run_raised _ _ _ _ Hrun Hstep Hj). reflexivity.
Qed.

(** The bounds an iteration has checked when it returns. *)
Lemma density_interval_bounds (j : nat) (st st' : state) :
  interval j st = Returned st' ->
  (j - 1 < length param_update_inds)%nat /\
  (j < n_rows (res_path path))%nat /\
  (n_comps < n_cols (res_path path))%nat /\
  (j < length (diffusion path))%nat.
Proof.
  unfold Evaluator.interval. intros H.
  apply bind_returned in H; destruct H as [update [Hup H]].
  apply bind_returned in H; destruct H as [pars [_ H]].
  apply bind_returned in H; destruct H as [mean [_ H]].
  apply bind_returned in H; destruct H as [rp [_ H]].
  apply bind_returned in H; destruct H as [x [Hx H]].
  apply bind_returned in H; destruct H as [sigma [Hsig _]].
  apply flag_at_returned in Hup. destruct Hup as [Hup _].
  unfold row_span_checked in Hx.
  apply bind_returned in Hx; destruct Hx as [u [Hb _]].
  apply check_returned in Hb.
  apply andb_prop in Hb; destruct Hb as [Hb Hb3].
  apply andb_prop in Hb; destruct Hb as [Hb1 _].
  apply Nat.ltb_lt in Hb1, Hb3.
  unfold slice_checked in Hsig.
  apply bind_returned in Hsig; destruct Hsig as [u' [Hs _]].
  apply check_returned, Nat.ltb_lt in Hs.
  auto.
Qed.

Lemma density_run_shape (k : nat) (st : state) :
  run k = Returned st ->
  n_rows (residual_process st) = n_rows (residual path) /\
  n_cols (residual_process st) = n_cols (residual path).
Proof.
  revert st; induction k as [|k IH]; intros st Hrun.
  - destruct (run_zero _ Hrun) as (_ & -> & _). auto.
  - destruct (run_step _ _ Hrun) as [st0 [Hrun0 Hstep]].
    destruct (IH _ Hrun0) as [Hr Hc].
    destruct (interval_returned _ _ _ Hstep)
      as (update & _ & _ & _ & _ & _ & _ & Hlen & Hres & _).
    rewrite Hres. split; [exact Hr|].
    rewrite set_row_n_cols; assumption.
Qed.

(** X19: what a call that returns after at least one iteration has checked
    on its way: at least one compartment, a residual process with n_comps
    columns and a row per time point, a residual path with a time column and
    n_comps more and a row per time point, a diffusion slice per time point,
    and an update flag for every time point but the last. *)
Theorem lna_density2_returns_only_if (out : density) :
  lna_density2 = Returned out -> (2 <= n_times)%nat ->
  (1 <= n_rows lna_pars)%nat /\
  (1 <= n_comps)%nat /\
  n_cols (residual path) = n_comps /\
  (n_times <= n_rows (residual path))%nat /\
  (n_times <= n_rows (res_path path))%nat /\
  (n_comps + 1 <= n_cols (res_path path))%nat /\
  (n_times <= length (diffusion path))%nat /\
  (n_times - 1 <= length param_update_inds)%nat.
Proof.
  intros Hout H2.
  destruct (lna_density2_returned _ Hout) as [st_end [Hend _]].
  replace (n_times - 1)%nat with (S (n_times - 2)) in Hend by lia.
  destruct (run_step _ _ Hend) as [st [Hrun Hstep]].
  destruct (density_run_shape _ _ Hrun) as [Hr Hc].
  destruct (interval_returned _ _ _ Hstep)
    as (update & _ & _ & _ & Hn & Hlen2 & Hj & Hlen & _).
  destruct (density_interval_bounds _ _ _ Hstep) as (Hf & Hrp & Hcp & Hd).
  cbv zeta in Hlen. rewrite length_firstn, length_skipn in Hlen.
  destruct (run_prefix _ 0 _ Hrun) as [st0 Hrun0]; [lia|].
  assert (Hrow : (1 <= n_rows lna_pars)%nat).
  { unfold Evaluator.run, Evaluator.initialise, rcpp_row in Hrun0.
    simpl in Hrun0.
    destruct (0 <? n_rows lna_pars)%nat eqn:E; [|discriminate].
    apply Nat.ltb_lt in E. lia. }
  repeat split; try lia.
Qed.

Section Progress.

(** The integrator works in place: the buffer keeps its size. *)
Hypothesis integrate_length :
  forall pars x t_L t_R step,
    length (integrate_stem_lna pars x t_L t_R step) = length x.

(** The density returns a vector with an entry. *)
Hypothesis dmvtn_entry :
  forall x mean sigma, (0 < length (dmvtn x mean sigma true))%nat.

Hypothesis some_compartment : (1 <= n_comps)%nat.
Hypothesis parameter_row0 : (1 <= n_rows lna_pars)%nat.
Hypothesis enough_parameter_rows : (n_times - 1 <= n_rows lna_pars)%nat.
Hypothesis enough_flags : (n_times - 1 <= length param_update_inds)%nat.
Hypothesis residual_cols : n_cols (residual path) = n_comps.
Hypothesis residual_rows : (n_times <= n_rows (residual path))%nat.
Hypothesis res_path_cols : (n_comps + 1 <= n_cols (res_path path))%nat.
Hypothesis res_path_rows : (n_times <= n_rows (res_path path))%nat.
Hypothesis enough_slices : (n_times <= length (diffusion path))%nat.

Lemma density_check_true (b : bool) (e : failure) :
  b = true -> check b e = Returned tt.
Proof. intros ->. reflexivity. Qed.

Lemma density_buffer_length (k : nat) (st : state) :
  run k = Returned st -> length (lna_state_vec st) = (2 * n_comps)%nat.
Proof.
  revert st; induction k as [|k IH]; intros st Hrun.
  - destruct (run_zero _ Hrun) as (-> & _). apply zeros_length.
  - destruct (run_step _ _ Hrun) as [st0 [Hrun0 Hstep]].
    destruct (interval_returned _ _ _ Hstep)
      as (update & _ & _ & _ & _ & Hlen & _ & _ & _ & _ & Hobs & Hbuf).
    rewrite Hbuf. rewrite copy_into_length by (rewrite Hobs; lia).
    unfold Evaluator.integrated. rewrite integrate_length.
    apply (IH _ Hrun0).
Qed.

Lemma density_interval_returns (k : nat) (st : state) :
  run k = Returned st -> (k < n_times - 1)%nat ->
  exists st', interval (S k) st = Returned st'.
Proof.
  intros Hrun Hk.
  pose proof (density_buffer_length _ _ Hrun) as Hbl.
  destruct (density_run_shape _ _ Hrun) as [Hr Hc].
  unfold Evaluator.interval, flag_at.
  replace (S k - 1)%nat with k by lia.
  rewrite density_check_true by (apply Nat.ltb_lt; lia). cbn [bind].
  assert (Hpars : exists pars,
            (if nth k param_update_inds false
             then row <- rcpp_row lna_pars k ;;
                  Returned (row, set_lna_params row (ode_pars st, pushed st))
             else Returned (current_params st, (ode_pars st, pushed st)))
            = Returned pars).
  { destruct (nth k param_update_inds false); [|eauto].
    unfold rcpp_row.
    rewrite density_check_true by (apply Nat.ltb_lt; lia). cbn [bind]. eauto. }
  destruct Hpars as [pars ->]. cbn [bind].
  set (out := Evaluator.integrated _ _ _ _ _).
  assert (Hout : length out = (2 * n_comps)%nat).
  { unfold out, Evaluator.integrated. rewrite integrate_length. exact Hbl. }
  unfold subvec_checked.
  rewrite density_check_true
    by (unfold resid_start, resid_end;
        rewrite !andb_true_iff, !Z.leb_le, Z.ltb_lt; lia).
  cbn [bind].
  set (mean := firstn _ (skipn _ out)).
  assert (Hmean : length mean = n_comps).
  { unfold mean, resid_start, resid_end.
    rewrite length_firstn, length_skipn. lia. }
  unfold set_row_checked.
  rewrite density_check_true by (apply Nat.ltb_lt; lia). cbn [bind].
  rewrite density_check_true by (apply Nat.eqb_eq; congruence). cbn [bind].
  unfold row_span_checked.
  rewrite density_check_true
    by (rewrite !andb_true_iff, !Nat.ltb_lt, Nat.leb_le; lia).
  cbn [bind].
  unfold slice_checked.
  rewrite density_check_true by (apply Nat.ltb_lt; lia). cbn [bind].
  rewrite density_check_true by (apply Nat.ltb_lt; apply dmvtn_entry).
  cbn [bind]. eauto.
Qed.

Lemma density_run_returns (k : nat) :
  (k <= n_times - 1)%nat -> exists st, run k = Returned st.
Proof.
  induction k as [|k IH]; intros Hk.
  - unfold Evaluator.run, Evaluator.initialise, rcpp_row.
    rewrite density_check_true by (apply Nat.ltb_lt; lia).
    cbn [bind for_each seq]. eauto.
  - destruct IH as [st Hrun]; [lia|].
    destruct (density_interval_returns _ _ Hrun ltac:(lia)) as [st' Hstep].
    exists st'. rewrite run_succ, Hrun. exact Hstep.
Qed.

(** X20: with an integrator that keeps the size of the buffer and a density
    that returns an entry, the call returns whenever there is a compartment,
    a parameter row 0 and one for every time point but the last, a flag for
    every time point but the last, a residual process with n_comps columns,
    a residual path with a time column and n_comps more, and a row of both
    and a diffusion slice for every time point. *)
Theorem lna_density2_returns_if : exists out, lna_density2 = Returned out.
Proof.
  destruct (density_run_returns (n_times - 1) (le_n _)) as [st Hrun].
  unfold Evaluator.lna_density2. rewrite Hrun. cbn [bind]. eauto.
Qed.

End Progress.

End EvaluatorMore.

Section TwoBundles.

Variable integrate_stem_lna : vec -> vec -> R -> R -> R -> vec.
Variable dmvtn : vec -> vec -> mat -> bool -> vec.
Variable path path' : path_bundle.
Variable lna_times : vec.
Variable lna_pars : mat.
Variable param_update_inds : list bool.
Variable flow_matrix : mat.

Local Abbreviation n_times := (n_times lna_times).
Local Abbreviation interval_on bundle :=
  (interval integrate_stem_lna dmvtn bundle lna_times lna_pars
            param_update_inds flow_matrix).
Local Abbreviation run_on bundle :=
  (run integrate_stem_lna dmvtn bundle lna_times lna_pars
       param_update_inds flow_matrix).

Hypothesis same_res_path : res_path path' = res_path path.
Hypothesis same_diffusion : diffusion path' = diffusion path.
Hypothesis same_rows : n_rows (residual path') = n_rows (residual path).
Hypothesis same_cols : n_cols (residual path') = n_cols (residual path).
Hypothesis wf_residual : wf_mat (residual path).
Hypothesis wf_residual' : wf_mat (residual path').

Lemma interval_alike (j : nat) (st st' s : state) :
  alike st st' -> interval_on path j st = Returned s ->
  exists s',
    interval_on path' j st' = Returned s' /\ alike s s' /\
    mrow (residual_process s') j = mrow (residual_process s) j /\
    forall i, i <> j ->
      mrow (residual_process s) i = mrow (residual_process st) i /\
      mrow (residual_process s') i = mrow (residual_process st') i.
Proof.
  intros (Hcp & Hbuf & Hlik & Hode & Hpush & Hwf & Hwf' & Hr & Hc) H.
  unfold Evaluator.interval in *.
  rewrite Hcp, Hbuf, Hlik, Hode, Hpush, same_res_path, same_diffusion.
  destruct (flag_at param_update_inds (j - 1)) as [update|];
    cbn [bind] in *; [|discriminate].
  match type of H with
  | bind ?c _ = _ => destruct c as [pars|]; cbn [bind] in *; [|discriminate]
  end.
  destruct (subvec_checked _ _ _) as [mean|]; cbn [bind] in *; [|discriminate].
  unfold set_row_checked in *. rewrite Hr, Hc.
  destruct (j <? n_rows (residual_process st))%nat eqn:Ej;
    cbn [bind check] in *; [|discriminate].
  destruct (length mean =? n_cols (residual_process st))%nat eqn:El;
    cbn [bind check] in *; [|discriminate].
  apply Nat.ltb_lt in Ej. apply Nat.eqb_eq in El.
  destruct (row_span_checked _ _ _ _) as [x|]; cbn [bind] in *; [|discriminate].
  destruct (slice_checked _ _) as [sigma|]; cbn [bind] in *; [|discriminate].
  rewrite mrow_set_row_same in H by assumption.
  rewrite mrow_set_row_same by (try assumption; congruence).
  destruct (0 <? length (dmvtn x mean sigma true))%nat;
    cbn [bind check] in *; [|discriminate].
  injection H as <-.
  eexists. split; [reflexivity|]. simpl.
  split.
  - unfold alike; simpl.
    repeat (split; [reflexivity|]).
    split; [apply set_row_wf; exact Hwf|].
    split; [apply set_row_wf; exact Hwf'|].
    split; [exact Hr|].
    rewrite !set_row_n_cols by congruence. exact Hc.
  - split.
    + rewrite !mrow_set_row_same by (try assumption; congruence). reflexivity.
    + intros i Hi. split; apply mrow_set_row_other; congruence.
Qed.

Lemma run_alike (k : nat) (st : state) :
  run_on path k = Returned st ->
  exists st',
    run_on path' k = Returned st' /\ alike st st' /\
    forall j, (1 <= j <= k)%nat ->
              mrow (residual_process st') j = mrow (residual_process st) j.
Proof.
  revert st; induction k as [|k IH]; intros st Hrun.
  - unfold Evaluator.run, Evaluator.initialise in *.
    destruct (rcpp_row lna_pars 0) as [cp|]; cbn [bind for_each seq] in *;
      [|discriminate].
    injection Hrun as <-. eexists. split; [reflexivity|].
    split; [|intros j Hj; lia].
    unfold Tracking.alike; simpl. repeat (split; [reflexivity|]). auto.
  - rewrite EvaluatorFacts.density_run_succ in Hrun.
    apply bind_returned in Hrun. destruct Hrun as [st0 [Hrun0 Hstep]].
    destruct (IH _ Hrun0) as [st0' [Hrun0' [Hal Hrows]]].
    destruct (interval_alike _ _ _ _ Hal Hstep)
      as [st' [Hstep' [Hal' [Hnew Hold]]]].
    exists st'. split.
    + rewrite EvaluatorFacts.density_run_succ, Hrun0'. exact Hstep'.
    + split; [exact Hal'|].
      intros j Hj. destruct (Nat.eq_dec j (S k)) as [->|Hne]; [exact Hnew|].
      destruct (Hold j Hne) as [-> ->]. apply Hrows. lia.
Qed.

(** X21: the values of the supplied residual process are never read.  Two
    bundles with the same residual path and diffusion process, and residual
    processes of one shape, give the same log-density and the same rows 1 to
    n_times-1 of the returned residual process (the other fields of the
    bundle play no part either). *)
Theorem lna_density2_ignores_supplied_residual (out : density) :
  lna_density2 integrate_stem_lna dmvtn path lna_times lna_pars
               param_update_inds flow_matrix = Returned out ->
  exists out',
    lna_density2 integrate_stem_lna dmvtn path' lna_times lna_pars
                 param_update_inds flow_matrix = Returned out' /\
    out_lna_log_lik out' = out_lna_log_lik out /\
    forall j, (1 <= j)%nat -> (j < n_times)%nat ->
              mrow (out_residual out') j = mrow (out_residual out) j.
Proof.
  unfold Evaluator.lna_density2. intros H.
  apply bind_returned in H. destruct H as [st [Hrun H]].
  injection H as <-.
  destruct (run_alike _ _ Hrun) as [st' [Hrun' [Hal Hrows]]].
  rewrite Hrun'. cbn [bind]. eexists. split; [reflexivity|]. simpl.
  split; [apply Hal|].
  intros j H1 Hj. apply Hrows. fold n_times. lia.
Qed.

End TwoBundles.
End EvaluatorMore.

Module EvaluatorMoreWitnesses.
Import Evaluator Tracking Samples EvaluatorMore.

Local Abbreviation integrate_stem_lna := shift_one.
Local Abbreviation dmvtn := sample_dmvtn.
Local Abbreviation path := sample_path.
Local Abbreviation lna_times := sample_times.
Local Abbreviation lna_pars := sample_lna_pars.
Local Abbreviation param_update_inds := sample_flags.
Local Abbreviation flow_matrix := sample_flow.

Local Abbreviation n_comps := (n_comps flow_matrix).
Local Abbreviation n_times := (n_times lna_times).
Local Abbreviation run :=
  (run integrate_stem_lna dmvtn path lna_times lna_pars
       param_update_inds flow_matrix).
Local Abbreviation lna_density2 :=
  (lna_density2 integrate_stem_lna dmvtn path lna_times lna_pars
                param_update_inds flow_matrix).

Lemma lna_density2_no_interval_witness :
  Evaluator.lna_density2 shift_one sample_dmvtn sample_path [5]
    sample_lna_pars [] sample_flow
  = Returned (mkDensity (lna_path path) (res_path path) (drift path)
                        (residual path) (diffusion path) (data_log_lik path) 0).
Proof.
  apply (lna_density2_no_interval
           shift_one sample_dmvtn sample_path [5] sample_lna_pars []
           sample_flow); vm_compute; lia.
Defined.

Lemma lna_density2_no_parameter_row_witness :
  Evaluator.lna_density2 shift_one sample_dmvtn sample_path sample_times
    no_row_pars sample_flags sample_flow
  = Raised IndexOutOfBounds.
Proof.
  apply (lna_density2_no_parameter_row
           shift_one sample_dmvtn sample_path sample_times no_row_pars
           sample_flags sample_flow).
  reflexivity.
Defined.

Lemma sample_density_run2 : exists st, run 2 = Returned st.
Proof. eexists. reflexivity. Qed.

Lemma lna_density2_callback_trace_witness :
  exists st,
    run 2 = Returned st /\
    pushed st =
      mrow lna_pars 0 :: map (mrow lna_pars) (reloaded param_update_inds 2) /\
    Forall (fun i => (i < n_rows lna_pars)%nat) (reloaded param_update_inds 2) /\
    last (pushed st) [] = current_params st /\
    ode_pars st = current_params st.
Proof.
  destruct sample_density_run2 as [st Hrun].
  exists st. split; [exact Hrun|].
  apply (lna_density2_callback_trace
           integrate_stem_lna dmvtn path lna_times lna_pars param_update_inds
           flow_matrix 2 st Hrun).
Defined.

(** With a diffusion slice missing the second iteration fails on
    [slice(2)]. *)
Lemma short_diffusion_raises :
  exists st,
    Evaluator.run shift_one sample_dmvtn short_diffusion_path sample_times
      sample_lna_pars sample_flags sample_flow 1 = Returned st /\
    Evaluator.interval shift_one sample_dmvtn short_diffusion_path
      sample_times sample_lna_pars sample_flags sample_flow 2 st
    = Raised IndexOutOfBounds.
Proof. eexists. split; reflexivity. Qed.

Lemma lna_density2_failure_propagates_witness :
  Evaluator.lna_density2 shift_one sample_dmvtn short_diffusion_path
    sample_times sample_lna_pars sample_flags sample_flow
  = Raised IndexOutOfBounds.
Proof.
  destruct short_diffusion_raises as [st [Hrun Hstep]].
  apply (lna_density2_failure_propagates
           shift_one sample_dmvtn short_diffusion_path sample_times
           sample_lna_pars sample_flags sample_flow
           1 st IndexOutOfBounds Hrun Hstep).
  vm_compute; lia.
Defined.

Lemma lna_density2_returns_only_if_witness :
  exists out,
    lna_density2 = Returned out /\ (2 <= n_times)%nat /\
    (1 <= n_rows lna_pars)%nat /\
    (1 <= n_comps)%nat /\
    n_cols (residual path) = n_comps /\
    (n_times <= n_rows (residual path))%nat /\
    (n_times <= n_rows (res_path path))%nat /\
    (n_comps + 1 <= n_cols (res_path path))%nat /\
    (n_times <= length (diffusion path))%nat /\
    (n_times - 1 <= length param_update_inds)%nat.
Proof.
  destruct EvaluatorWitnesses.sample_density_returns as [out Hout].
  exists out. split; [exact Hout|].
  assert (H2 : (2 <= n_times)%nat) by (vm_compute; lia).
  split; [exact H2|].
  apply (lna_density2_returns_only_if
           integrate_stem_lna dmvtn path lna_times lna_pars param_update_inds
           flow_matrix out Hout H2).
Defined.

Lemma other_residual_wf : wf_mat (residual other_residual_path).
Proof. repeat constructor. Qed.

Lemma lna_density2_ignores_supplied_residual_witness :
  exists out,
    lna_density2 = Returned out /\
    exists out',
      Evaluator.lna_density2 shift_one sample_dmvtn other_residual_path
        sample_times sample_lna_pars sample_flags sample_flow = Returned out' /\
      out_lna_log_lik out' = out_lna_log_lik out /\
      forall j, (1 <= j)%nat -> (j < n_times)%nat ->
                mrow (out_residual out') j = mrow (out_residual out) j.
Proof.
  destruct EvaluatorWitnesses.sample_density_returns as [out Hout].
  exists out. split; [exact Hout|].
  apply (lna_density2_ignores_supplied_residual
           integrate_stem_lna dmvtn path other_residual_path lna_times
           lna_pars param_update_inds flow_matrix
           eq_refl eq_refl eq_refl eq_refl
           EvaluatorWitnesses.sample_residual_wf other_residual_wf out Hout).
Defined.

Lemma lna_density2_returns_if_witness : exists out, lna_density2 = Returned out.
Proof.
  apply (lna_density2_returns_if
           integrate_stem_lna dmvtn path lna_times lna_pars param_update_inds
           flow_matrix).
  - intros pars x t_L t_R step. apply length_map.
  - intros x mean sigma. vm_compute; lia.
  - vm_compute; lia.
  - vm_compute; lia.
  - vm_compute; lia.
  - vm_compute; lia.
  - reflexivity.
  - vm_compute; lia.
  - vm_compute; lia.
  - vm_compute; lia.
  - vm_compute; lia.
Defined.

End EvaluatorMoreWitnesses.

(** ** pars2lnapars followed by propose_lna or lna_density2 *)

Module Composition.
Import ParsWriter Tracking.

Lemma pars2lnapars_result (lnapars M' : mat) (parameters : vec) :
  pars2lnapars lnapars parameters = Returned (tt, M') ->
  M' = each_row_assign lnapars parameters /\
  (1 <= length parameters)%nat /\ (length parameters <= n_cols lnapars)%nat.
Proof.
  unfold pars2lnapars. intros H.
  apply bind_returned in H. destruct H as [u [Hb H]].
  apply check_returned, ParsWriterMore.cols_in_bounds_spec in Hb.
  injection H as <-. auto.
Qed.

(** Entry (r, i) of the written matrix for a column the vector covers. *)
Lemma elem_written (lnapars M' : mat) (parameters : vec) (r i : nat) :
  pars2lnapars lnapars parameters = Returned (tt, M') ->
  (r < n_rows M')%nat -> (i < length parameters)%nat ->
  elem M' r i = nth i parameters 0.
Proof.
  intros H Hr Hi. apply pars2lnapars_result in H. destruct H as (-> & _ & _).
  apply ParsWriterFacts.each_row_assign_head; assumption.
Qed.

Section AfterWriting.

Variable integrate_stem_lna : vec -> vec -> R -> R -> R -> vec.
Variable chol_lower : mat -> option mat.
Variable randn : nat -> nat -> R.
Variable dmvtn : vec -> vec -> mat -> bool -> vec.
Variable path : Evaluator.path_bundle.
Variable lna_times : vec.
Variable lnapars lna_pars : mat.
Variable parameters : vec.
Variable init_start : nat.
Variable param_update_inds : list bool.
Variable stoich_matrix : mat.
Variable flow_matrix : mat.

Local Abbreviation n_comps := (Proposer.n_comps stoich_matrix).
Local Abbreviation propose_run :=
  (Proposer.run integrate_stem_lna chol_lower randn lna_times lna_pars
                init_start param_update_inds stoich_matrix).
Local Abbreviation density_run :=
  (Evaluator.run integrate_stem_lna dmvtn path lna_times lna_pars
                 param_update_inds flow_matrix).

(** [lna_pars] is what [pars2lnapars] has left in the caller's matrix. *)
Hypothesis written : pars2lnapars lnapars parameters = Returned (tt, lna_pars).

Lemma propose_current_row (k : nat) (st : Proposer.state) :
  propose_run k = Returned st ->
  Proposer.ode_pars st = Proposer.current_params st /\
  exists r, (r < n_rows lna_pars)%nat /\
    forall i, (i < init_start \/ init_start + n_comps <= i)%nat ->
              nth i (Proposer.current_params st) 0 = elem lna_pars r i.
Proof.
  revert st; induction k as [|k IH]; intros st Hrun.
  - apply ProposerMore.run_zero_initialise in Hrun.
    destruct (ProposerFacts.initialise_returned _ _ _ _ _ Hrun)
      as (_ & Hr & _ & Hcp & _ & _ & Hode & _).
    split; [congruence|].
    exists 0%nat. split; [exact Hr|].
    intros i _. rewrite Hcp. apply nth_mrow.
  - destruct (ProposerFacts.run_step _ _ _ _ _ _ _ _ _ _ Hrun)
      as [st0 [Hrun0 Hstep]].
    destruct (IH _ Hrun0) as [_ [r0 [Hr0 Hout]]].
    destruct (ProposerFacts.interval_returned _ _ _ _ _ _ _ _ _ _ _ Hstep)
      as (L & cp & update & _ & _ & _ & _ & _ & _ & _ & _ & _ & _ & _
          & _ & Hil & Hvol & _ & _ & Hload & Hfit & Hcp & Hode & _).
    split; [exact Hode|].
    assert (Hvl : length (Proposer.init_volumes st) = n_comps).
    { rewrite Hvol, length_map, vadd_length; [exact Hil|].
      rewrite mat_vec_length. exact Hil. }
    assert (Hcopy : forall i, (i < init_start \/ init_start + n_comps <= i)%nat ->
                      nth i (Proposer.current_params st) 0 = nth i cp 0).
    { intros i Hi. rewrite Hcp. destruct Hi as [Hi|Hi].
      - apply copy_into_before; assumption.
      - apply copy_into_after; [assumption | lia]. }
    destruct update.
    + apply rcpp_row_returned in Hload. destruct Hload as [Hr ->].
      exists (k + 1)%nat. split; [exact Hr|].
      intros i Hi. rewrite (Hcopy i Hi). apply nth_mrow.
    + injection Hload as <-. exists r0. split; [exact Hr0|].
      intros i Hi. rewrite (Hcopy i Hi). apply Hout. exact Hi.
Qed.

(** X22: after [pars2lnapars] has written a parameter vector into the
    matrix, the vector the integrator holds after any number of intervals of
    [propose_lna] carries that vector's entries in every column it covers
    outside the volume columns, whatever the update flags are. *)
Theorem written_parameters_reach_proposer (k : nat) (st : Proposer.state) (i : nat) :
  propose_run k = Returned st ->
  (i < length parameters)%nat ->
  (i < init_start \/ init_start + n_comps <= i)%nat ->
  nth i (Proposer.ode_pars st) 0 = nth i parameters 0.
Proof.
  intros Hrun Hi Hout.
  destruct (propose_current_row _ _ Hrun) as [-> [r [Hr Hrow]]].
  rewrite (Hrow i Hout).
  apply (elem_written lnapars lna_pars parameters r i written Hr Hi).
Qed.

Lemma density_current_row (k : nat) (st : Evaluator.state) :
  density_run k = Returned st ->
  Evaluator.ode_pars st = Evaluator.current_params st /\
  exists r, (r < n_rows lna_pars)%nat /\
            Evaluator.current_params st = mrow lna_pars r.
Proof.
  revert st; induction k as [|k IH]; intros st Hrun.
  - pose proof Hrun as Hrun'.
    destruct (EvaluatorFacts.density_run_zero _ _ _ _ _ _ _ _ Hrun)
      as (_ & _ & _ & Hcp & Hode & _).
    split; [congruence|]. exists 0%nat. split; [|exact Hcp].
    unfold Evaluator.run, Evaluator.initialise, rcpp_row in Hrun'.
    simpl in Hrun'.
    destruct (0 <? n_rows lna_pars)%nat eqn:E; [|discriminate].
    apply Nat.ltb_lt. exact E.
  - destruct (EvaluatorFacts.density_run_step _ _ _ _ _ _ _ _ _ Hrun)
      as [st0 [Hrun0 Hstep]].
    destruct (IH _ Hrun0) as [Hode0 [r0 [Hr0 Hcp0]]].
    destruct (EvaluatorFacts.density_interval_returned _ _ _ _ _ _ _ _ _ _ Hstep)
      as (update & _ & Hpars & Hode & _).
    destruct update.
    + destruct Hpars as (Hr & Hcp & _).
      split; [congruence|]. exists (S k - 1)%nat. auto.
    + destruct Hpars as (Hcp & _).
      split; [congruence|]. exists r0. split; [exact Hr0 | congruence].
Qed.

(** X23: after [pars2lnapars] has written a parameter vector into the
    matrix, the vector the integrator holds at any point of [lna_density2]
    starts with that vector, whatever the update flags are. *)
Theorem written_parameters_reach_evaluator (k : nat) (st : Evaluator.state) :
  density_run k = Returned st ->
  firstn (length parameters) (Evaluator.ode_pars st) = parameters.
Proof.
  intros Hrun.
  destruct (density_current_row _ _ Hrun) as [-> [r [Hr ->]]].
  destruct (pars2lnapars_result _ _ _ written) as (HM & H1 & Hle).
  apply nth_ext with (d := 0) (d' := 0).
  - rewrite length_firstn. unfold mrow. rewrite length_map.
    fold (n_cols lna_pars). rewrite HM.
    rewrite ParsWriterFacts.each_row_assign_cols by exact Hle. lia.
  - intros i Hi. rewrite length_firstn in Hi.
    rewrite nth_firstn.
    replace (i <? length parameters)%nat with true
      by (symmetry; apply Nat.ltb_lt; lia).
    rewrite nth_mrow.
    apply (elem_written lnapars lna_pars parameters r i written Hr). lia.
Qed.

End AfterWriting.

Import Samples.

Lemma sample_written :
  pars2lnapars sample_lna_pars [9]
  = Returned (tt, each_row_assign sample_lna_pars [9]).
Proof. reflexivity. Qed.

Lemma written_proposer_run :
  exists st,
    Proposer.run unit_noise chol_1x1 sample_randn sample_times
      (each_row_assign sample_lna_pars [9]) sample_init_start sample_flags
      sample_stoich 2 = Returned st.
Proof. eexists. ProposerWitnesses.run_sample. reflexivity. Qed.

Lemma written_parameters_reach_proposer_witness :
  exists st,
    Proposer.run unit_noise chol_1x1 sample_randn sample_times
      (each_row_assign sample_lna_pars [9]) sample_init_start sample_flags
      sample_stoich 2 = Returned st /\
    nth 0 (Proposer.ode_pars st) 0 = nth 0 [9] 0.
Proof.
  destruct written_proposer_run as [st Hrun].
  exists st. split; [exact Hrun|].
  apply (written_parameters_reach_proposer
           unit_noise chol_1x1 sample_randn sample_times sample_lna_pars
           (each_row_assign sample_lna_pars [9]) [9] sample_init_start
           sample_flags sample_stoich sample_written 2 st 0 Hrun).
  - vm_compute; lia.
  - left. vm_compute; lia.
Defined.

Lemma written_density_run :
  exists st,
    Evaluator.run shift_one sample_dmvtn sample_path sample_times
      (each_row_assign sample_lna_pars [9]) sample_flags sample_flow 2
    = Returned st.
Proof. eexists. reflexivity. Qed.

Lemma written_parameters_reach_evaluator_witness :
  exists st,
    Evaluator.run shift_one sample_dmvtn sample_path sample_times
      (each_row_assign sample_lna_pars [9]) sample_flags sample_flow 2
    = Returned st /\
    firstn (length [9]) (Evaluator.ode_pars st) = [9].
Proof.
  destruct written_density_run as [st Hrun].
  exists st. split; [exact Hrun|].
  apply (written_parameters_reach_evaluator
           shift_one sample_dmvtn sample_path sample_times sample_lna_pars
           (each_row_assign sample_lna_pars [9]) [9]
           sample_flags sample_flow sample_written 2 st Hrun).
Defined.

End Composition.
